(** * handson-ml3 exercises: the notebooks' own functions

    The notebooks call library estimators for almost everything.  The code
    they define themselves is small: the image-shift augmentation of the
    chapter 3 notebook ([shift]) and the learning-rate ramp callback of the
    chapter 10 and chapter 13 notebooks ([ExponentialLearningRate]).  Both are
    embedded here, together with the part of NumPy's array semantics that
    [shift] relies on.  The hyperparameter searches are calls into the
    library; of the model selector that the specification describes, only
    the ranking of candidate results is developed, from the specification's
    data model.

    Definitions come first (modules [Numpy], [Mnist], [PyFloat],
    [LearningRate], [ModelSelector]), their properties after. *)

From Stdlib Require Import List ZArith Arith Lia Bool Reals Lra.
From Stdlib Require Import QArith Permutation Sorted.
From Stdlib Require Import Floats.SpecFloat.
From Stdlib Require String.
Import ListNotations.
Close Scope Q_scope.

(** ** Two-dimensional arrays, as [shift] uses them

    A NumPy array of shape (r, c) is kept as its list of rows together with
    the column count: an array with no row still has a column count, and
    [vstack] compares it. *)

Module Numpy.
Section Arrays.
Context {A : Type}.
Variable zero : A.

Record ndarray := mk_ndarray { ncols : nat; rows : list (list A) }.

Definition nrows (a : ndarray) : nat := length (rows a).

(** Every row has the declared width. *)
Definition well_shaped (a : ndarray) : Prop :=
  Forall (fun r => length r = ncols a) (rows a).

(** [a] has [r] rows of [c] entries each. *)
Definition has_shape (a : ndarray) (r c : nat) : Prop :=
  nrows a = r /\ ncols a = c /\ well_shaped a.

(** [np.zeros((r, c))]. *)
Definition zeros (r c : nat) : ndarray :=
  mk_ndarray c (repeat (repeat zero c) r).

(** The first [n] chunks of width [w] of a flat vector (row-major order). *)
Fixpoint chunk (n w : nat) (v : list A) : list (list A) :=
  match n with
  | O => []
  | S n' => firstn w v :: chunk n' w (skipn w v)
  end.

(** [v.reshape(r, c)]: raises unless the sizes agree. *)
Definition reshape2 (r c : nat) (v : list A) : option ndarray :=
  if length v =? r * c then Some (mk_ndarray c (chunk r c v)) else None.

(** [a.reshape(n)] of a two-dimensional array. *)
Definition reshape1 (n : nat) (a : ndarray) : option (list A) :=
  if nrows a * ncols a =? n then Some (concat (rows a)) else None.

(** A slice bound [k] on an axis of length [len], as Python normalises it:
    a negative bound counts from the end, and both are clamped. *)
Definition slice_bound (len : nat) (k : Z) : nat :=
  if (k <? 0)%Z then len - Z.abs_nat k else Nat.min (Z.abs_nat k) len.

(** [a[:, :k]]: the bound is normalised against the column count. *)
Definition cols_to (k : Z) (a : ndarray) : ndarray :=
  mk_ndarray (slice_bound (ncols a) k)
             (map (firstn (slice_bound (ncols a) k)) (rows a)).

(** [a[:, k:]]. *)
Definition cols_from (k : Z) (a : ndarray) : ndarray :=
  mk_ndarray (ncols a - slice_bound (ncols a) k)
             (map (skipn (slice_bound (ncols a) k)) (rows a)).

(** [a[:k, :]]. *)
Definition rows_to (k : Z) (a : ndarray) : ndarray :=
  mk_ndarray (ncols a) (firstn (slice_bound (nrows a) k) (rows a)).

(** [a[k:, :]]. *)
Definition rows_from (k : Z) (a : ndarray) : ndarray :=
  mk_ndarray (ncols a) (skipn (slice_bound (nrows a) k) (rows a)).

(** Rows joined pairwise. *)
Fixpoint zip_app (xs ys : list (list A)) : list (list A) :=
  match xs, ys with
  | x :: xs', y :: ys' => (x ++ y) :: zip_app xs' ys'
  | _, _ => []
  end.

(** [np.hstack((a, b))]: the row counts must agree. *)
Definition hstack (a b : ndarray) : option ndarray :=
  if nrows a =? nrows b
  then Some (mk_ndarray (ncols a + ncols b) (zip_app (rows a) (rows b)))
  else None.

(** [np.vstack((a, b))]: the column counts must agree. *)
Definition vstack (a b : ndarray) : option ndarray :=
  if ncols a =? ncols b
  then Some (mk_ndarray (ncols a) (rows a ++ rows b))
  else None.

End Arrays.
Arguments ndarray A : clear implicits.
End Numpy.

(** ** Chapter 3: data augmentation by shifting an image *)

Module Mnist.
Import Numpy.
Section Shift.
Context {A : Type}.
Variable zero : A.

(** Sequencing of steps that may raise. *)
Definition bind {X Y : Type} (m : option X) (f : X -> option Y) : option Y :=
  match m with Some x => f x | None => None end.

(** The horizontal step of [shift]: [direction[0]] decides. *)
Definition shift_columns (d0 : Z) (image : ndarray A) : option (ndarray A) :=
  if (d0 >? 0)%Z then
    hstack (zeros zero 28 (Z.abs_nat d0)) (cols_to (- d0) image)
  else if (d0 <? 0)%Z then
    hstack (cols_from (- d0) image) (zeros zero 28 (Z.abs_nat d0))
  else Some image.

(** The vertical step: [direction[1]] decides. *)
Definition shift_rows (d1 : Z) (image : ndarray A) : option (ndarray A) :=
  if (d1 >? 0)%Z then
    vstack (rows_from d1 image) (zeros zero (Z.abs_nat d1) 28)
  else if (d1 <? 0)%Z then
    vstack (zeros zero (Z.abs_nat d1) 28) (rows_to d1 image)
  else Some image.

(** [shift(image_data, direction)]; [None] stands for the exception NumPy
    raises when a reshape or a stack does not fit. *)
Definition shift (image_data : list A) (direction : Z * Z) : option (list A) :=
  bind (reshape2 28 28 image_data) (fun image =>
  bind (shift_columns (fst direction) image) (fun image =>
  bind (shift_rows (snd direction) image) (fun image =>
  reshape1 784 image))).

(** [shift(image, direction)] for every image of the training set, as the
inner loop of the augmentation cell calls it. *)
Fixpoint shift_all (direction : Z * Z) (images : list (list A))
  : option (list (list A)) :=
  match images with
  | [] => Some []
  | image :: rest =>
      bind (shift image direction) (fun shifted =>
      bind (shift_all direction rest) (fun others =>
      Some (shifted :: others)))
  end.

(** The augmentation cell: the training images, followed by their shifts in
the four directions [(-1, 0)], [(1, 0)], [(0, 1)] and [(0, -1)].  The
labels, which follow the images unchanged, and the final random shuffle are
left out. *)
Definition augment (X_train : list (list A)) : option (list (list A)) :=
  bind (shift_all (-1, 0)%Z X_train) (fun left =>
  bind (shift_all (1, 0)%Z X_train) (fun right =>
  bind (shift_all (0, 1)%Z X_train) (fun up =>
  bind (shift_all (0, -1)%Z X_train) (fun down =>
  Some (X_train ++ left ++ right ++ up ++ down))))).

End Shift.
End Mnist.

(** ** Python floats and the float32 rate of the optimizer

    A Python float is an IEEE 754 binary64 number and the optimizer's
    learning rate a binary32 number.  Both are values of the Standard
    Library's [spec_float], with its operations at 53 or 24 bits of
    precision; every result is rounded to nearest, ties to even. *)

Module PyFloat.

Definition float : Type := spec_float.

Definition zero : float := S754_zero false.
Definition one : float := S754_finite false 4503599627370496 (-52).


Definition is_nan (x : float) : bool :=
  match x with S754_nan => true | _ => false end.


(** [float(n)] for an integer [n] within the range of floats. *)
Definition float_of_int (n : Z) : float := binary_normalize 53 1024 n 0 false.

(** The float that the literal [m]e-[k] denotes, for [m] and [10 ** k] that
    a float holds exactly: the quotient, correctly rounded. *)
Definition decimal (m : Z) (k : nat) : float :=
  SFdiv 53 1024 (float_of_int m) (float_of_int (10 ^ Z.of_nat k)).






(** The value of [x ** y]: a float, or a complex number (whose value is not
    represented: nothing below reads it). *)
Inductive power : Type :=
  | Real (x : float)
  | Complex.

Section Pow.

(** The C library's [pow] for a positive base other than 1 and a finite,
    non-zero exponent; CPython decides every other case itself. *)
Variable libm_pow : float -> float -> float.


End Pow.


(** The binary32 number nearest to a float: what storing a Python float in
    a float32 variable, or using it beside a float32 operand, makes of it. *)
Definition to_float32 (x : float) : float :=
  match x with
  | S754_finite s m e => binary_round 24 128 s m e
  | _ => x
  end.

(** The product of two binary32 numbers. *)
Definition mul32 (x y : float) : float := SFmul 24 128 x y.

(** [np.argmin] of a non-empty list of floats: the first position of the
    least entry, or of the first NaN if there is one. *)
Fixpoint argmin_from (best : nat) (least : float) (i : nat) (l : list float)
  : nat :=
  match l with
  | [] => best
  | x :: rest =>
      if is_nan least then best
      else if is_nan x || SFltb x least then argmin_from i x (S i) rest
      else argmin_from best least (S i) rest
  end.

(** [np.argmin(l)]: an empty list raises ValueError. *)
Definition argmin (l : list float) : option nat :=
  match l with
  | [] => None
  | x :: rest => Some (argmin_from 0 x 1 rest)
  end.

End PyFloat.

(** ** Chapters 10 and 13: the callback [ExponentialLearningRate] *)

Module LearningRate.
Import PyFloat.

(** The two attributes of the Keras model that the callback reads and
    writes: [model.optimizer.learning_rate], a float32 variable, and
    [model.stop_training]. *)
Record keras_model := mk_model {
  learning_rate : float;
  stop_training : bool
}.

Record ExponentialLearningRate := mk_callback {
  factor : power;
  starting_lr : float;
  end_lr : float;
  learning_rates : list float;
  losses : list float
}.

Section Init.
Variable libm_pow : float -> float -> float.


End Init.

(** [on_train_begin]: the assignment stores [starting_lr] as a float32. *)
Definition on_train_begin (cb : ExponentialLearningRate) (m : keras_model)
  : keras_model :=
  mk_model (to_float32 (starting_lr cb)) (stop_training m).

(** [lr > self.end_lr] for a float32 [lr]: NumPy compares in float32. *)
Definition exceeds (end_lr lr : float) : bool := SFltb (to_float32 end_lr) lr.

(** [on_train_batch_end], as the chapter 10 notebook writes it; [loss] is
    [logs["loss"]].  The product of the float32 rate and the factor is a
    float32.  With a complex factor the product is complex, which can
    neither be compared with [end_lr] nor stored in the float32 variable:
    the method raises before it records anything. *)
Definition on_train_batch_end (cb : ExponentialLearningRate) (m : keras_model)
  (loss : float) : option (ExponentialLearningRate * keras_model) :=
  match factor cb with
  | Complex => None
  | Real f =>
      let lr := mul32 (learning_rate m) (to_float32 f) in
      let stop := if exceeds (end_lr cb) lr then true else stop_training m in
      Some (mk_callback (factor cb) (starting_lr cb) (end_lr cb)
                        (learning_rates cb ++ [lr]) (losses cb ++ [loss]),
            mk_model lr stop)
  end.

(** The chapter 13 notebook prints the rate of minimum loss before it sets
    the flag: [np.argmin(self.losses)] raises on an empty list, and the
    subscript raises when [learning_rates] is too short; nothing else
    differs. *)
Definition on_train_batch_end_13 (cb : ExponentialLearningRate)
  (m : keras_model) (loss : float)
  : option (ExponentialLearningRate * keras_model) :=
  match factor cb with
  | Complex => None
  | Real f =>
      let lr := mul32 (learning_rate m) (to_float32 f) in
      if exceeds (end_lr cb) lr then
        match argmin (losses cb) with
        | None => None
        | Some i =>
            match nth_error (learning_rates cb) i with
            | None => None
            | Some _ => on_train_batch_end cb m loss
            end
        end
      else on_train_batch_end cb m loss
  end.

(** The training loop is Keras's: it calls [on_train_batch_end] after every
    batch and leaves the loop once [stop_training] is set.  [batch_losses]
    are the losses of the batches still to come. *)
Fixpoint run_batches (cb : ExponentialLearningRate) (m : keras_model)
  (batch_losses : list float)
  : option (ExponentialLearningRate * keras_model) :=
  match batch_losses with
  | [] => Some (cb, m)
  | loss :: rest =>
      match on_train_batch_end cb m loss with
      | None => None
      | Some (cb', m') =>
          if stop_training m' then Some (cb', m') else run_batches cb' m' rest
      end
  end.

Fixpoint run_batches_13 (cb : ExponentialLearningRate) (m : keras_model)
  (batch_losses : list float)
  : option (ExponentialLearningRate * keras_model) :=
  match batch_losses with
  | [] => Some (cb, m)
  | loss :: rest =>
      match on_train_batch_end_13 cb m loss with
      | None => None
      | Some (cb', m') =>
          if stop_training m' then Some (cb', m') else run_batches_13 cb' m' rest
      end
  end.

(** [model.fit(..., callbacks=[cb])]: Keras clears [stop_training], calls
    [on_train_begin] and runs the batches. *)
Definition fit (cb : ExponentialLearningRate) (m : keras_model)
  (batch_losses : list float)
  : option (ExponentialLearningRate * keras_model) :=
  run_batches cb (on_train_begin cb (mk_model (learning_rate m) false))
              batch_losses.

Definition fit_13 (cb : ExponentialLearningRate) (m : keras_model)
  (batch_losses : list float)
  : option (ExponentialLearningRate * keras_model) :=
  run_batches_13 cb (on_train_begin cb (mk_model (learning_rate m) false))
                 batch_losses.

(** The rate after batch [t], counted from 0, when the optimizer holds [r]
    before the first batch: [t + 1] float32 products with the float32
    factor [f]. *)
Fixpoint ramp (f r : float) (t : nat) : float :=
  match t with
  | O => mul32 r f
  | S t' => mul32 (ramp f r t') f
  end.

(** The rate after batch [t] of a call of [fit]. *)
Definition rate (starting_lr f : float) (t : nat) : float :=
  ramp (to_float32 f) (to_float32 starting_lr) t.

End LearningRate.

(** ** The model selector: ranking candidate results

    The notebooks tune hyperparameters by calling the library's search
    classes ([GridSearchCV], [RandomizedSearchCV]); the reduction that ranks
    the candidates and picks the winner is not code of the notebooks.  It is
    written here from the specification's data model. *)

Module ModelSelector.

(** Modelled from the spec: a candidate value of a hyperparameter (the
    search code is missing; the notebooks' grids hold booleans, integers,
    reals and names). *)
Inductive value : Type :=
| VBool (b : bool)
| VInt (z : Z)
| VReal (q : Q)
| VName (s : String.string).

(** Modelled from the spec: a hyperparameter configuration, "a mapping from
    parameter name to a candidate value" (missing: the search code that
    builds it). *)
Definition configuration : Type := list (String.string * value).

(** Modelled from the spec: a cross-validation score, with the "negative
    infinity" that the spec gives a failed candidate (missing: the scoring
    code). *)
Inductive score : Type :=
| NegInf
| Finite (q : Q).

(** Modelled from the spec: the strict order of scores (missing: the
    comparison the search ranks with). *)
Definition score_ltb (a b : score) : bool :=
  match a, b with
  | _, NegInf => false
  | NegInf, Finite _ => true
  | Finite x, Finite y =>
      match Qcompare x y with Lt => true | _ => false end
  end.

(** Modelled from the spec: a Candidate Result, "configuration + mean
    cross-validation score (and optionally per-fold scores)" (missing: the
    search code that produces it). *)
Record candidate_result : Type := mk_result {
  config : configuration;
  mean_score : score;
  fold_scores : option (list Q)
}.

(** Modelled from the spec: [a] scores strictly below [b] (missing: the
    ranking code). *)
Definition worse (a b : candidate_result) : bool :=
  score_ltb (mean_score a) (mean_score b).

(** Modelled from the spec: two results tie when neither scores below the
    other (missing: the ranking code). *)
Definition tie (a b : candidate_result) : bool :=
  negb (worse a b) && negb (worse b a).

(** Modelled from the spec: the max-by-score reduction step, "ties broken by
    first-encountered configuration": the earlier result [a] is kept unless
    the later one scores strictly higher (missing: the search's reduction). *)
Definition best2 (a b : candidate_result) : candidate_result :=
  if worse a b then b else a.

(** Modelled from the spec: the best result, "the maximum-scoring Candidate
    Result over all evaluated candidates", reduced in evaluation order
    (missing: the search's reduction). *)
Definition best (results : list candidate_result) : option candidate_result :=
  match results with
  | [] => None
  | r :: rest => Some (fold_left best2 rest r)
  end.

(** Modelled from the spec: the single best configuration of the output
    (missing: the search code). *)
Definition best_configuration (results : list candidate_result)
  : option configuration :=
  option_map config (best results).

(** Modelled from the spec: one step of the ranking, placing [r] before the
    first result that does not score strictly higher, so that [r] stays in
    front of the later results it ties with (missing: the ranking code). *)
Fixpoint insert (r : candidate_result) (ranked : list candidate_result)
  : list candidate_result :=
  match ranked with
  | [] => [r]
  | x :: rest => if worse r x then x :: insert r rest else r :: x :: rest
  end.

(** Modelled from the spec: the ranked result list, "Ordering is by score,
    descending; ties broken by first-encountered configuration (stable)"
    (missing: the ranking code). *)
Definition rank (results : list candidate_result) : list candidate_result :=
  fold_right insert [] results.

(** Modelled from the spec: the strict order of scores as a proposition
    (missing: the comparison the search ranks with). *)
Definition score_lt (a b : score) : Prop :=
  match a, b with
  | _, NegInf => False
  | NegInf, Finite _ => True
  | Finite x, Finite y => (x < y)%Q
  end.

(** Modelled from the spec: descending order of score, no result scoring
    below a later one (missing: the ranking code). *)
Definition descending : list candidate_result -> Prop :=
  StronglySorted (fun a b => worse a b = false).

(** Modelled from the spec: the candidate results of the end-to-end example,
    the grid [{param: [1, 2, 3]}] with a scoring stub that scores [param = 2]
    highest (missing: the search code and the stub). *)
Module Example.
Import String.

Definition candidate (p : Z) (s : Q) : candidate_result :=
  mk_result [("param"%string, VInt p)] (Finite s) None.

Definition evaluated : list candidate_result :=
  [candidate 1 (1 # 2); candidate 2 (9 # 10); candidate 3 (7 # 10)].

End Example.

End ModelSelector.

(** ** Reading single entries

    These readers serve to state what the array functions return entry by
    entry; they are used for indices inside the shape only. *)

Module NumpyIndex.
Import Numpy.
Section Index.
Context {A : Type}.
Variable zero : A.

(** [a[i, j]] for [i] and [j] inside the shape of [a]. *)
Definition entry (a : ndarray A) (i j : nat) : A :=
  nth j (nth i (rows a) []) zero.

(** Row [r], column [c] lies inside a 28 x 28 image. *)
Definition in_frame (r c : Z) : bool :=
  ((0 <=? r) && (r <? 28) && (0 <=? c) && (c <? 28))%Z.

(** The entry of the flat 28 x 28 image [v] at row [r], column [c], read as
    zero outside the image. *)
Definition pixel_at (v : list A) (r c : Z) : A :=
  if ((0 <=? r) && (r <? 28) && (0 <=? c) && (c <? 28))%Z
  then nth (Z.to_nat (28 * r + c)) v zero
  else zero.

(** The entry of the flat 28 x 28 image [v] that [shift] moves to row [i],
    column [j]: the one at row [i + direction[1]], column [j - direction[0]],
    or a zero when that place lies outside the image. *)
Definition shift_source (v : list A) (direction : Z * Z) (i j : nat) : A :=
  let r := (Z.of_nat i + snd direction)%Z in
  let c := (Z.of_nat j - fst direction)%Z in
  if ((0 <=? r) && (r <? 28) && (0 <=? c) && (c <? 28))%Z
  then nth (Z.to_nat (28 * r + c)) v zero
  else zero.

End Index.
End NumpyIndex.

(** ** Chapter 3: the augmentation cell with its labels and its shuffle *)

Module MnistAugment.
Import Numpy Mnist.
Section Cell.
Context {A L : Type}.
Variable zero : A.

(** The four shifts of the loop, in the order of the cell. *)
Definition directions : list (Z * Z) :=
  [(-1, 0); (1, 0); (0, 1); (0, -1)]%Z.

(** One turn of the outer loop: for every pair of [zip(X_train, y_train)] the
    shifted image is appended to the images and the label to the labels. *)
Definition append_shifted (X_train : list (list A)) (y_train : list L)
  (direction : Z * Z) (acc : list (list A) * list L)
  : option (list (list A) * list L) :=
  bind (shift_all zero direction (map fst (combine X_train y_train)))
       (fun shifted =>
          Some (fst acc ++ shifted,
                snd acc ++ map snd (combine X_train y_train))).

(** The outer loop over a list of directions. *)
Fixpoint append_all (X_train : list (list A)) (y_train : list L)
  (ds : list (Z * Z)) (acc : list (list A) * list L)
  : option (list (list A) * list L) :=
  match ds with
  | [] => Some acc
  | d :: rest =>
      bind (append_shifted X_train y_train d acc)
           (append_all X_train y_train rest)
  end.

(** [a[idx]] for a list [idx] of positions; a position past the end raises. *)
Fixpoint take_indices {T : Type} (a : list T) (idx : list nat)
  : option (list T) :=
  match idx with
  | [] => Some []
  | p :: rest =>
      match nth_error a p, take_indices a rest with
      | Some x, Some xs => Some (x :: xs)
      | _, _ => None
      end
  end.

(** The whole cell.  [shuffle_idx] is what
    [np.random.permutation(len(X_train_augmented))] returned. *)
Definition augmentation_cell (X_train : list (list A)) (y_train : list L)
  (shuffle_idx : list nat) : option (list (list A) * list L) :=
  bind (append_all X_train y_train directions (X_train, y_train))
       (fun augmented =>
  bind (take_indices (fst augmented) shuffle_idx) (fun X_train_augmented =>
  bind (take_indices (snd augmented) shuffle_idx) (fun y_train_augmented =>
  Some (X_train_augmented, y_train_augmented)))).

End Cell.
End MnistAugment.

(** ** Chapter 13: writing a dataset to shards and reading it back *)

Module Shards.
Section Files.
Context {Item Rec : Type}.

(** [serialize(image, label)]: the bytes of one example. *)
Variable serialize : Item -> Rec.

(** [writers[j].write(x)]: the record is appended to file [j]; a position
    past the last writer raises. *)
Fixpoint write_at (writers : list (list Rec)) (j : nat) (x : Rec)
  : option (list (list Rec)) :=
  match writers, j with
  | [], _ => None
  | w :: ws, O => Some ((w ++ [x]) :: ws)
  | w :: ws, S j' =>
      match write_at ws j' x with
      | Some ws' => Some (w :: ws')
      | None => None
      end
  end.

(** The loop [for i, (image, label) in dataset.enumerate():
    writers[i % num_shards].write(serialize(image, label))], from the element
    number [i] on; [i % 0] raises. *)
Fixpoint write_loop (num_shards : nat) (writers : list (list Rec)) (i : nat)
  (dataset : list Item) : option (list (list Rec)) :=
  match dataset with
  | [] => Some writers
  | x :: rest =>
      if num_shards =? 0 then None
      else match write_at writers (i mod num_shards) (serialize x) with
           | Some writers' => write_loop num_shards writers' (S i) rest
           | None => None
           end
  end.

(** The files of one dataset: one new, empty file per shard, then the loop. *)
Definition write_shards (num_shards : nat) (dataset : list Item)
  : option (list (list Rec)) :=
  write_loop num_shards (repeat [] num_shards) 0 dataset.

(** One turn of the reader over the open files: the next record of every file
    that has one left. *)
Definition heads (files : list (list Rec)) : list Rec :=
  flat_map (firstn 1) files.

Definition tails (files : list (list Rec)) : list (list Rec) :=
  map (skipn 1) files.

Fixpoint read_rounds (rounds : nat) (files : list (list Rec)) : list Rec :=
  match rounds with
  | O => []
  | S r => heads files ++ read_rounds r (tails files)
  end.

(** [tf.data.TFRecordDataset(file_paths, num_parallel_reads=num_shards)] with
    as many parallel reads as files: the files are read in turn, one record
    from each, in a fixed order, until the longest file is exhausted. *)
Definition read_shards (files : list (list Rec)) : list Rec :=
  read_rounds (list_max (map (@length Rec) files)) files.

(** The number of elements at the positions [j], [j + k], [j + 2 k], ...
    below [n]. *)
Definition stride_len (k n j : nat) : nat :=
  n / k + (if j <? n mod k then 1 else 0).

End Files.
End Shards.

(** ** Chapter 9: turning and mirroring a face

    [np.rot90] is written as NumPy writes it, from [transpose] and [flip]. *)

Module Faces.
Import Numpy Mnist.
Section Rot.
Context {A : Type}.

(** Column [j] of a list of rows. *)
Definition column (j : nat) (rs : list (list A)) : list A :=
  flat_map (fun r => firstn 1 (skipn j r)) rs.

(** [a.T]. *)
Definition transpose (a : ndarray A) : ndarray A :=
  mk_ndarray (nrows a) (map (fun j => column j (rows a)) (seq 0 (ncols a))).

(** [np.flip(a, 0)]: the rows in reverse order. *)
Definition flip0 (a : ndarray A) : ndarray A :=
  mk_ndarray (ncols a) (rev (rows a)).

(** [np.flip(a, 1)]: every row reversed. *)
Definition flip1 (a : ndarray A) : ndarray A :=
  mk_ndarray (ncols a) (map (@rev A) (rows a)).

(** [np.rot90(m, k)] of a two-dimensional array: [k] is taken modulo 4. *)
Definition rot90 (m : ndarray A) (k : Z) : ndarray A :=
  match (k mod 4)%Z with
  | 0%Z => m
  | 1%Z => transpose (flip1 m)
  | 2%Z => flip1 (flip0 m)
  | _ => flip1 (transpose m)
  end.

(** [a.ravel()]. *)
Definition ravel (a : ndarray A) : list A := concat (rows a).

(** [rotate_face(face)]; [k] is the number that [np.random.randint(1, 4)]
    drew, one of 1, 2 and 3. *)
Definition rotate_face (face : list A) (k : Z) : option (list A) :=
  bind (reshape2 64 64 face) (fun m => Some (ravel (rot90 m k))).

(** [flip_face(face)]. *)
Definition flip_face (face : list A) : option (list A) :=
  bind (reshape2 64 64 face) (fun m => Some (ravel (rot90 (transpose m) 3))).

(** Where [rotate_face] with the draw [k] takes the entry of row [i], column
    [j] of its result from. *)
Definition rotation_source (k : Z) (i j : nat) : nat * nat :=
  match k with
  | 1%Z => (j, 63 - i)
  | 2%Z => (63 - i, 63 - j)
  | _ => (63 - j, i)
  end.

End Rot.
End Faces.

(** ** Chapter 9: the cell that builds the modified faces

    Pixels are real numbers (exact arithmetic).  [draws i] is the number that
    [np.random.randint(1, 4)] returns in the call of [rotate_face] of loop
    round [i]. *)

Module ModifiedFaces.
Import Numpy Mnist Faces.

(** [darken_face(face)]. *)
Definition darken_face (face : list R) : list R :=
  map (fun x => (x - 0.5)%R) face.

(** [lighten_face(face)]. *)
Definition lighten_face (face : list R) : list R :=
  map (fun x => (x + 0.5)%R) face.

(** The four lists that the loop fills. *)
Record bins : Type := mk_bins {
  rotated : list (list R);
  flipped : list (list R);
  darkened : list (list R);
  lightened : list (list R)
}.

(** One round of [for i in range(5)]; an index past the end of [X_modified]
    raises. *)
Definition modify_step (X_modified : list (list R)) (draws : nat -> Z)
    (acc : bins) (i : nat) : option bins :=
  bind (nth_error X_modified (4 * i)) (fun x0 =>
  bind (rotate_face x0 (draws i)) (fun r =>
  bind (nth_error X_modified (4 * i + 1)) (fun x1 =>
  bind (flip_face x1) (fun f =>
  bind (nth_error X_modified (4 * i + 2)) (fun x2 =>
  bind (nth_error X_modified (4 * i + 3)) (fun x3 =>
  Some (mk_bins (rotated acc ++ [r]) (flipped acc ++ [f])
                (darkened acc ++ [darken_face x2])
                (lightened acc ++ [lighten_face x3])))))))).

(** The loop over [range(rounds)], from the four empty lists. *)
Definition modify_loop (X_modified : list (list R)) (draws : nat -> Z)
    (rounds : nat) : option bins :=
  fold_left (fun acc i => bind acc (fun b => modify_step X_modified draws b i))
            (seq 0 rounds) (Some (mk_bins [] [] [] [])).

(** [np.vstack] of a list of one-dimensional arrays: an empty list or rows of
    different lengths raise. *)
Definition vstack_rows (rs : list (list R)) : option (ndarray R) :=
  match rs with
  | [] => None
  | r :: _ =>
      if forallb (fun x => length x =? length r) rs
      then Some (mk_ndarray (length r) rs)
      else None
  end.

(** The cell: [X_modified = X_val[:20]], the loop, and
    [np.vstack(rotated + flipped + darkened + lightened)]. *)
Definition modified_cell (X_val : ndarray R) (draws : nat -> Z)
    : option (ndarray R) :=
  let X_modified := firstn 20 (rows X_val) in
  bind (modify_loop X_modified draws 5) (fun b =>
  vstack_rows (rotated b ++ flipped b ++ darkened b ++ lightened b)).

(** The change that makes row [q] of the stacked array, by its block of five
    rows. *)
Definition modification (block : nat) (k : Z) (face : list R)
    : option (list R) :=
  match block with
  | 0 => rotate_face face k
  | 1 => flip_face face
  | 2 => Some (darken_face face)
  | _ => Some (lighten_face face)
  end.

(** The row of [X_val[:20]] that row [q] of the stacked array is made from:
    round [q mod 5] of the loop, list [q / 5]. *)
Definition modified_source (q : nat) : nat := 4 * (q mod 5) + q / 5.

End ModifiedFaces.

(** ** Chapter 9: the faces and the labels of every cluster *)

Module Clusters.
Import Mnist.
Section Masks.
Context {A : Type}.

(** [a[mask]] for a boolean [mask] over the first axis of [a]; a mask of
    another length raises. *)
Definition mask_select (mask : list bool) (a : list A) : option (list A) :=
  if length mask =? length a
  then Some (map snd (filter fst (combine mask a)))
  else None.

(** [labels_ == cluster]. *)
Definition labels_eq (labels : list nat) (cluster : nat) : list bool :=
  map (fun l => l =? cluster) labels.

(** A list comprehension whose element expression may raise. *)
Fixpoint comprehension {X : Type} (steps : list (option X)) : option (list X) :=
  match steps with
  | [] => Some []
  | s :: rest =>
      bind s (fun x => bind (comprehension rest) (fun xs => Some (x :: xs)))
  end.

(** [[a[labels_ == cluster] for cluster in range(best_k)]]: the expression of
    both [cluster_faces] (with [a = X_train]) and [cluster_faces_labels] (with
    [a = y_train]). *)
Definition cluster_faces (labels : list nat) (a : list A) (best_k : nat)
    : option (list (list A)) :=
  comprehension
    (map (fun cluster => mask_select (labels_eq labels cluster) a)
         (seq 0 best_k)).

End Masks.
End Clusters.

(** ** Chapter 3: the two cells that cache the test predictions

    The files under [models/] are an association list from path to pickled
    value, the newest [joblib.dump] first; the estimator is known by its
    [fit] and [predict] only.  A cell that raises returns [None]. *)

Module PredictionCache.
Import String.
Section Cells.
Variables Estimator Data Inputs Predictions : Type.
Variable fit : Estimator -> Data -> Estimator.
Variable predict : Estimator -> Inputs -> Predictions.
Variables training_set augmented_training_set : Data.
Variable X_test : Inputs.

Definition files : Type := list (string * Predictions).

(** [joblib.load(path)] when [path.is_file()], [None] when it is no file. *)
Fixpoint load (path : string) (disk : files) : option Predictions :=
  match disk with
  | [] => None
  | (p, v) :: rest => if String.eqb p path then Some v else load path rest
  end.

(** [joblib.dump(value, path)]. *)
Definition dump (value : Predictions) (path : string) (disk : files) : files :=
  (path, value) :: disk.

(** The files, the estimator [grid_search.best_estimator_], and the two
    variables of the notebook ([None] while a name is unbound). *)
Record session : Type := mk_session {
  disk : files;
  best_estimator_ : Estimator;
  y_test_predicted : option Predictions;
  y_test_predicted_aug : option Predictions
}.

Definition plain_path : string := "models/03_y_test_predicted.pkl".
Definition augmented_path : string := "models/03_y_test_predicted_augmented.pkl".

(** The cell with [model_name = "03_y_test_predicted"]. *)
Definition predictions_cell (s : session) : option session :=
  match load plain_path (disk s) with
  | Some cached =>
      Some (mk_session (disk s) (best_estimator_ s) (Some cached)
                       (y_test_predicted_aug s))
  | None =>
      let estimator := fit (best_estimator_ s) training_set in
      let predicted := predict estimator X_test in
      Some (mk_session (dump predicted plain_path (disk s)) estimator
                       (Some predicted) (y_test_predicted_aug s))
  end.

(** The cell with [model_name = "03_y_test_predicted_augmented"]: its last
    line dumps [y_test_predicted]. *)
Definition augmented_predictions_cell (s : session) : option session :=
  match load augmented_path (disk s) with
  | Some cached =>
      Some (mk_session (disk s) (best_estimator_ s) (y_test_predicted s)
                       (Some cached))
  | None =>
      let estimator := fit (best_estimator_ s) augmented_training_set in
      let predicted := predict estimator X_test in
      match y_test_predicted s with
      | None => None
      | Some plain =>
          Some (mk_session (dump plain augmented_path (disk s)) estimator
                           (Some plain) (Some predicted))
      end
  end.

End Cells.

Arguments load {Predictions} path disk.
Arguments dump {Predictions} value path disk.
Arguments mk_session {Estimator Predictions}.
Arguments disk {Estimator Predictions} s.
Arguments best_estimator_ {Estimator Predictions} s.
Arguments y_test_predicted {Estimator Predictions} s.
Arguments y_test_predicted_aug {Estimator Predictions} s.
Arguments predictions_cell {Estimator Data Inputs Predictions}.
Arguments augmented_predictions_cell {Estimator Data Inputs Predictions}.

End PredictionCache.

(** ** Chapter 13: the validation split of a shuffled dataset

    [train_set] is [Dataset.from_tensor_slices(...).shuffle(buffer_size=60_000)],
    which draws a new order every time it is iterated; a pass over the
    dataset is the list of its elements in the order of that pass. *)

Module ShuffledSplit.
Section Split.
Context {Item : Type}.

Definition valid_size : nat := 2048.

(** One pass over [valid_set = train_set.take(valid_size)], [order] being the
    order that the shuffle draws for this pass. *)
Definition valid_set (order : list Item) : list Item := firstn valid_size order.

(** One pass over [train_set = train_set.skip(valid_size)]. *)
Definition train_set (order : list Item) : list Item := skipn valid_size order.

(** The movie reviews: [get_movie_dataset()] ends in [.cache().shuffle(25_000)],
    so every pass over it has an order of its own as well;
    [valid_dataset = test_dataset.take(15_000)] and
    [test_dataset = test_dataset.skip(15_000)], before batching. *)
Definition movie_valid_size : nat := 15 * 1000.

Definition movie_valid_dataset (order : list Item) : list Item :=
  firstn movie_valid_size order.

Definition movie_test_dataset (order : list Item) : list Item :=
  skipn movie_valid_size order.

End Split.
End ShuffledSplit.

(** ** Chapter 13: [get_dataset]

    [parse] and [preprocess] are the two mapped functions, [shuffled] the
    order that [dataset.shuffle] draws. *)

Module InputPipeline.
Import Numpy Shards.
Section Pipeline.
Context {Rec Example Tensor : Type}.
Variable parse : Rec -> Example.
Variable preprocess : Example -> Tensor.
Variable shuffled : list Tensor -> list Tensor.




End Pipeline.
End InputPipeline.

(** ** Shapes of the array operations *)

Module NumpyFacts.
Import Numpy.
Section Shapes.
Context {A : Type}.
Variable zero : A.

Lemma slice_bound_le (len : nat) (k : Z) : slice_bound len k <= len.
Proof. unfold slice_bound. destruct (k <? 0)%Z; lia. Qed.

Lemma zeros_shape (r c : nat) : has_shape (zeros zero r c) r c.
Proof.
  unfold has_shape, nrows, well_shaped; simpl.
  rewrite repeat_length. repeat split.
  apply Forall_forall. intros x Hx.
  apply repeat_spec in Hx. subst x. apply repeat_length.
Qed.

Lemma chunk_length (n w : nat) (v : list A) : length (chunk n w v) = n.
Proof. revert v. induction n as [|n IH]; intros v; simpl; auto. Qed.

Lemma chunk_rows (n w : nat) (v : list A) :
  length v = n * w -> Forall (fun r => length r = w) (chunk n w v).
Proof.
  revert v. induction n as [|n IH]; intros v Hv; simpl.
  - constructor.
  - constructor.
    + rewrite length_firstn. lia.
    + apply IH. rewrite length_skipn. lia.
Qed.

Lemma concat_chunk (n w : nat) (v : list A) :
  length v = n * w -> concat (chunk n w v) = v.
Proof.
  revert v. induction n as [|n IH]; intros v Hv; simpl.
  - destruct v; [reflexivity | discriminate].
  - rewrite IH.
    + apply firstn_skipn.
    + rewrite length_skipn. lia.
Qed.

Lemma reshape2_shape (r c : nat) (v : list A) :
  length v = r * c ->
  exists a, reshape2 r c v = Some a /\ has_shape a r c /\ concat (rows a) = v.
Proof.
  intros Hv. unfold reshape2.
  rewrite (proj2 (Nat.eqb_eq _ _) Hv).
  eexists; split; [reflexivity|].
  unfold has_shape, nrows, well_shaped; simpl.
  rewrite chunk_length.
  repeat split; auto using chunk_rows, concat_chunk.
Qed.

Lemma concat_rows_length (a : ndarray A) :
  well_shaped a -> length (concat (rows a)) = nrows a * ncols a.
Proof.
  unfold well_shaped, nrows. destruct a as [c rs]; simpl.
  induction 1 as [|r rs' Hr _ IH]; simpl; [reflexivity|].
  rewrite length_app, IH, Hr. reflexivity.
Qed.

Lemma reshape1_some (n r c : nat) (a : ndarray A) :
  has_shape a r c -> r * c = n ->
  exists v, reshape1 n a = Some v /\ v = concat (rows a) /\ length v = n.
Proof.
  intros (Hr & Hc & Hw) Hn. unfold reshape1.
  rewrite Hr, Hc, (proj2 (Nat.eqb_eq _ _) Hn).
  eexists; repeat split. rewrite concat_rows_length, Hr, Hc; auto.
Qed.

Lemma reshape1_none (n r c : nat) (a : ndarray A) :
  has_shape a r c -> r * c <> n -> reshape1 n a = None.
Proof.
  intros (Hr & Hc & _) Hn. unfold reshape1.
  rewrite Hr, Hc, (proj2 (Nat.eqb_neq _ _) Hn). reflexivity.
Qed.

Lemma cols_to_shape (k : Z) (a : ndarray A) (r c : nat) :
  has_shape a r c -> has_shape (cols_to k a) r (slice_bound c k).
Proof.
  intros (Hr & Hc & Hw). unfold has_shape, nrows, well_shaped, cols_to in *.
  simpl. rewrite length_map, Hc. repeat split; auto.
  apply Forall_map. eapply Forall_impl; [|exact Hw].
  intros x Hx. simpl in Hx. rewrite length_firstn, Hx, Hc.
  pose proof (slice_bound_le c k). lia.
Qed.

Lemma cols_from_shape (k : Z) (a : ndarray A) (r c : nat) :
  has_shape a r c -> has_shape (cols_from k a) r (c - slice_bound c k).
Proof.
  intros (Hr & Hc & Hw). unfold has_shape, nrows, well_shaped, cols_from in *.
  simpl. rewrite length_map, Hc. repeat split; auto.
  apply Forall_map. eapply Forall_impl; [|exact Hw].
  intros x Hx. simpl in Hx. rewrite length_skipn, Hx, Hc. reflexivity.
Qed.

Lemma Forall_firstn (P : list A -> Prop) (n : nat) (l : list (list A)) :
  Forall P l -> Forall P (firstn n l).
Proof.
  intros H. apply Forall_forall. intros x Hx.
  rewrite Forall_forall in H. apply H. rewrite <- (firstn_skipn n l).
  apply in_or_app. now left.
Qed.

Lemma Forall_skipn (P : list A -> Prop) (n : nat) (l : list (list A)) :
  Forall P l -> Forall P (skipn n l).
Proof.
  intros H. apply Forall_forall. intros x Hx.
  rewrite Forall_forall in H. apply H. rewrite <- (firstn_skipn n l).
  apply in_or_app. now right.
Qed.

Lemma rows_to_shape (k : Z) (a : ndarray A) (r c : nat) :
  has_shape a r c -> has_shape (rows_to k a) (slice_bound r k) c.
Proof.
  intros (Hr & Hc & Hw). unfold rows_to.
  unfold has_shape, nrows, well_shaped in *.
  simpl. rewrite length_firstn, Hr. repeat split; auto.
  - pose proof (slice_bound_le r k). lia.
  - now apply Forall_firstn.
Qed.

Lemma rows_from_shape (k : Z) (a : ndarray A) (r c : nat) :
  has_shape a r c -> has_shape (rows_from k a) (r - slice_bound r k) c.
Proof.
  intros (Hr & Hc & Hw). unfold rows_from.
  unfold has_shape, nrows, well_shaped in *.
  simpl. rewrite length_skipn, Hr. repeat split; auto.
  now apply Forall_skipn.
Qed.

Lemma zip_app_rows (c1 c2 : nat) (xs ys : list (list A)) :
  length xs = length ys ->
  Forall (fun r => length r = c1) xs ->
  Forall (fun r => length r = c2) ys ->
  length (zip_app xs ys) = length xs /\
  Forall (fun r => length r = c1 + c2) (zip_app xs ys).
Proof.
  revert ys. induction xs as [|x xs IH]; intros [|y ys] Hl Hx Hy;
    simpl in *; try discriminate; [split; constructor|].
  inversion Hx; inversion Hy; subst.
  destruct (IH ys) as [IH1 IH2]; auto.
  split; [now rewrite IH1|].
  constructor; auto. now rewrite length_app.
Qed.

Lemma hstack_shape (a b : ndarray A) (r c1 c2 : nat) :
  has_shape a r c1 -> has_shape b r c2 ->
  exists ab, hstack a b = Some ab /\ has_shape ab r (c1 + c2).
Proof.
  intros (Hr1 & Hc1 & Hw1) (Hr2 & Hc2 & Hw2). unfold hstack.
  rewrite Hr1, Hr2, Nat.eqb_refl. eexists; split; [reflexivity|].
  unfold has_shape, nrows, well_shaped in *; simpl.
  destruct (zip_app_rows (ncols a) (ncols b) (rows a) (rows b)) as [H1 H2];
    auto; [congruence|].
  rewrite H1, Hc1, Hc2 in *. auto.
Qed.

Lemma vstack_shape (a b : ndarray A) (r1 r2 c : nat) :
  has_shape a r1 c -> has_shape b r2 c ->
  exists ab, vstack a b = Some ab /\ has_shape ab (r1 + r2) c.
Proof.
  intros (Hr1 & Hc1 & Hw1) (Hr2 & Hc2 & Hw2). unfold vstack.
  rewrite Hc1, Hc2, Nat.eqb_refl. eexists; split; [reflexivity|].
  unfold has_shape, nrows, well_shaped in *; simpl.
  rewrite length_app, Hr1, Hr2. repeat split; auto.
  apply Forall_app. split; [now rewrite <- Hc1 | now rewrite <- Hc2].
Qed.

Lemma vstack_mismatch (a b : ndarray A) :
  ncols a <> ncols b -> vstack a b = None.
Proof.
  intros H. unfold vstack. now rewrite (proj2 (Nat.eqb_neq _ _) H).
Qed.

End Shapes.
End NumpyFacts.

(** ** What [shift] returns, and when it raises *)

Module MnistFacts.
Import Numpy NumpyFacts Mnist.
Section ShiftFacts.
Context {A : Type}.
Variable zero : A.

(** The horizontal step keeps 28 rows; the rows are 28 wide as long as the
    shift is at most 28, and as wide as the shift beyond that. *)
Lemma shift_columns_shape (d0 : Z) (image : ndarray A) :
  has_shape image 28 28 ->
  exists image', shift_columns zero d0 image = Some image' /\
                 has_shape image' 28 (Nat.max 28 (Z.abs_nat d0)).
Proof.
  intros Hs. unfold shift_columns.
  destruct (Z.gtb_spec d0 0) as [Hpos|Hnpos].
  - destruct (hstack_shape (zeros zero 28 (Z.abs_nat d0)) (cols_to (- d0) image)
                28 (Z.abs_nat d0) (slice_bound 28 (- d0)))
      as (ab & Hab & Hshape);
      auto using zeros_shape, cols_to_shape.
    exists ab. split; [exact Hab|].
    replace (Nat.max 28 (Z.abs_nat d0))
      with (Z.abs_nat d0 + slice_bound 28 (- d0)); [exact Hshape|].
    unfold slice_bound. destruct (Z.ltb_spec (- d0) 0); lia.
  - destruct (Z.ltb_spec d0 0) as [Hneg|Hzero].
    + destruct (hstack_shape (cols_from (- d0) image) (zeros zero 28 (Z.abs_nat d0))
                  28 (28 - slice_bound 28 (- d0)) (Z.abs_nat d0))
        as (ab & Hab & Hshape);
        auto using zeros_shape, cols_from_shape.
      exists ab. split; [exact Hab|].
      replace (Nat.max 28 (Z.abs_nat d0))
        with (28 - slice_bound 28 (- d0) + Z.abs_nat d0); [exact Hshape|].
      unfold slice_bound. destruct (Z.ltb_spec (- d0) 0); lia.
    + exists image. split; [reflexivity|].
      replace d0 with 0%Z by lia. exact Hs.
Qed.

(** On rows of width 28 the vertical step succeeds, with as many rows as
    the larger of 28 and the shift. *)
Lemma shift_rows_shape (d1 : Z) (image : ndarray A) :
  has_shape image 28 28 ->
  exists image', shift_rows zero d1 image = Some image' /\
                 has_shape image' (Nat.max 28 (Z.abs_nat d1)) 28.
Proof.
  intros Hs. unfold shift_rows.
  destruct (Z.gtb_spec d1 0) as [Hpos|Hnpos].
  - destruct (vstack_shape (rows_from d1 image) (zeros zero (Z.abs_nat d1) 28)
                (28 - slice_bound 28 d1) (Z.abs_nat d1) 28)
      as (ab & Hab & Hshape);
      auto using zeros_shape, rows_from_shape.
    exists ab. split; [exact Hab|].
    replace (Nat.max 28 (Z.abs_nat d1))
      with (28 - slice_bound 28 d1 + Z.abs_nat d1); [exact Hshape|].
    unfold slice_bound. destruct (Z.ltb_spec d1 0); lia.
  - destruct (Z.ltb_spec d1 0) as [Hneg|Hzero].
    + destruct (vstack_shape (zeros zero (Z.abs_nat d1) 28) (rows_to d1 image)
                  (Z.abs_nat d1) (slice_bound 28 d1) 28)
        as (ab & Hab & Hshape);
        auto using zeros_shape, rows_to_shape.
      exists ab. split; [exact Hab|].
      replace (Nat.max 28 (Z.abs_nat d1))
        with (Z.abs_nat d1 + slice_bound 28 d1); [exact Hshape|].
      unfold slice_bound. destruct (Z.ltb_spec d1 0); lia.
    + exists image. split; [reflexivity|].
      replace d1 with 0%Z by lia. exact Hs.
Qed.

(** On wider rows the vertical step either does nothing (no vertical
    shift) or fails in [vstack]. *)
Lemma shift_rows_wide (d1 : Z) (image : ndarray A) (c : nat) :
  has_shape image 28 c -> c <> 28 ->
  shift_rows zero d1 image = (if (d1 =? 0)%Z then Some image else None).
Proof.
  intros (Hr & Hc & Hw) Hne. unfold shift_rows.
  destruct (Z.gtb_spec d1 0) as [Hpos|Hnpos].
  - replace (d1 =? 0)%Z with false by (symmetry; apply Z.eqb_neq; lia).
    apply vstack_mismatch. simpl. congruence.
  - destruct (Z.ltb_spec d1 0) as [Hneg|Hzero].
    + replace (d1 =? 0)%Z with false by (symmetry; apply Z.eqb_neq; lia).
      apply vstack_mismatch. simpl. congruence.
    + replace d1 with 0%Z by lia. reflexivity.
Qed.

(** The zero shift gives the image back. *)
Lemma shift_zero (image_data : list A) :
  length image_data = 784 -> shift zero image_data (0, 0)%Z = Some image_data.
Proof.
  intros Hlen. unfold shift.
  destruct (reshape2_shape 28 28 image_data Hlen) as (a & Ha & Hs & Hcat).
  rewrite Ha. simpl.
  destruct (reshape1_some 784 28 28 a Hs eq_refl) as (v & Hv & Hv' & _).
  rewrite Hv. congruence.
Qed.

(** Shifts of at most 28 in both directions return an image of 784 entries. *)
Lemma shift_in_range (image_data : list A) (d0 d1 : Z) :
  length image_data = 784 ->
  (Z.abs d0 <= 28)%Z -> (Z.abs d1 <= 28)%Z ->
  exists out, shift zero image_data (d0, d1) = Some out /\ length out = 784.
Proof.
  intros Hlen H0 H1. unfold shift.
  destruct (reshape2_shape 28 28 image_data Hlen) as (a & Ha & Hs & _).
  rewrite Ha. simpl.
  destruct (shift_columns_shape d0 a Hs) as (b & Hb & Hsb).
  rewrite Hb. simpl.
  replace (Nat.max 28 (Z.abs_nat d0)) with 28 in Hsb by lia.
  destruct (shift_rows_shape d1 b Hsb) as (c & Hc & Hsc).
  rewrite Hc. simpl.
  replace (Nat.max 28 (Z.abs_nat d1)) with 28 in Hsc by lia.
  destruct (reshape1_some 784 28 28 c Hsc eq_refl) as (v & Hv & _ & Hvl).
  exists v. auto.
Qed.

(** A shift of more than 28 in either direction makes [shift] raise. *)
Lemma shift_out_of_range (image_data : list A) (d0 d1 : Z) :
  length image_data = 784 ->
  (28 < Z.abs d0 \/ 28 < Z.abs d1)%Z ->
  shift zero image_data (d0, d1) = None.
Proof.
  intros Hlen Hout. unfold shift.
  destruct (reshape2_shape 28 28 image_data Hlen) as (a & Ha & Hs & _).
  rewrite Ha. simpl.
  destruct (shift_columns_shape d0 a Hs) as (b & Hb & Hsb).
  rewrite Hb. simpl.
  destruct (Z_le_gt_dec (Z.abs d0) 28) as [Hin|Hwide].
  - replace (Nat.max 28 (Z.abs_nat d0)) with 28 in Hsb by lia.
    destruct (shift_rows_shape d1 b Hsb) as (c & Hc & Hsc).
    rewrite Hc. simpl.
    apply (reshape1_none 784 _ _ c Hsc). lia.
  - rewrite (shift_rows_wide d1 b _ Hsb) by lia.
    destruct (d1 =? 0)%Z; simpl; [|reflexivity].
    apply (reshape1_none 784 _ _ b Hsb). lia.
Qed.

(** C9, as amended: for an image of 784 entries, the zero shift returns
    the image itself; a shift of at most 28 pixels in each direction returns
    a vector of exactly 784 entries; a larger shift makes [shift] raise
    instead of returning. *)
Theorem shift_identity_and_size (image_data : list A) (d0 d1 : Z) :
  length image_data = 784 ->
  shift zero image_data (0, 0)%Z = Some image_data /\
  ((Z.abs d0 <= 28 /\ Z.abs d1 <= 28)%Z ->
   exists out, shift zero image_data (d0, d1) = Some out /\ length out = 784) /\
  ((28 < Z.abs d0 \/ 28 < Z.abs d1)%Z ->
   shift zero image_data (d0, d1) = None).
Proof.
  intros Hlen. split; [|split].
  - now apply shift_zero.
  - intros [H0 H1]. now apply shift_in_range.
  - now apply shift_out_of_range.
Qed.

Lemma shift_all_in_range (d0 d1 : Z) (images : list (list A)) :
Forall (fun image => length image = 784) images ->
(Z.abs d0 <= 28)%Z -> (Z.abs d1 <= 28)%Z ->
exists out, shift_all zero (d0, d1) images = Some out /\
            length out = length images /\
            Forall (fun image => length image = 784) out.
Proof.
intros Himages H0 H1. induction Himages as [|image rest Hlen _ IH]; simpl.
- exists []. auto.
- destruct (shift_in_range image d0 d1 Hlen H0 H1) as (shifted & Hs & Hl).
  destruct IH as (others & Ho & Hlo & Hfo).
  rewrite Hs, Ho. simpl. exists (shifted :: others). simpl. auto.
Qed.

(** The augmentation cell only shifts by one pixel, so it never raises: it
returns five images of 784 entries for every training image. *)
Lemma augment_size (X_train : list (list A)) :
Forall (fun image => length image = 784) X_train ->
exists out, augment zero X_train = Some out /\
            length out = 5 * length X_train /\
            Forall (fun image => length image = 784) out.
Proof.
intros HX. unfold augment.
destruct (shift_all_in_range (-1) 0 X_train HX) as (a & -> & Hla & Hfa); [lia..|].
destruct (shift_all_in_range 1 0 X_train HX) as (b & -> & Hlb & Hfb); [lia..|].
destruct (shift_all_in_range 0 1 X_train HX) as (c & -> & Hlc & Hfc); [lia..|].
destruct (shift_all_in_range 0 (-1) X_train HX) as (d & -> & Hld & Hfd); [lia..|].
simpl. eexists. split; [reflexivity|]. split.
- rewrite !length_app. lia.
- repeat (apply Forall_app; split); assumption.
Qed.

End ShiftFacts.

(** The notebook's own calls: three pixels up and three pixels to the right
    keep a blank image blank. *)
Example shift_blank_up :
  shift 0%Z (repeat 0%Z 784) (0, -3)%Z = Some (repeat 0%Z 784).
Proof. vm_compute. reflexivity. Qed.

Example shift_blank_right :
  shift 0%Z (repeat 0%Z 784) (3, 0)%Z = Some (repeat 0%Z 784).
Proof. vm_compute. reflexivity. Qed.

(** A two-pixel image: shifting right by one moves each pixel one column on,
    and the pixel in the last column of a row is dropped. *)
Example shift_moves_pixels :
  shift 0%Z ([7] ++ repeat 0 26 ++ [9] ++ repeat 0 756)%Z (1, 0)%Z
  = Some ([0; 7] ++ repeat 0 782)%Z.
Proof. vm_compute. reflexivity. Qed.

(** C9 as stated fails: a shift of 29 columns of a 784-entry image returns
    no vector at all. *)
Lemma shift_size_counterexample :
  length (repeat 0%Z 784) = 784 /\
  shift 0%Z (repeat 0%Z 784) (29, 0)%Z = None.
Proof. vm_compute. split; reflexivity. Qed.

Lemma shift_identity_and_size_witness :
  shift 0%Z (repeat 0%Z 784) (0, 0)%Z = Some (repeat 0%Z 784) /\
  (exists out, shift 0%Z (repeat 0%Z 784) (3, -3)%Z = Some out /\
               length out = 784) /\
  shift 0%Z (repeat 0%Z 784) (0, 30)%Z = None.
Proof.
  destruct (shift_identity_and_size 0%Z (repeat 0%Z 784) 3 (-3) eq_refl)
    as (Hid & Hin & _).
  destruct (shift_identity_and_size 0%Z (repeat 0%Z 784) 0 30 eq_refl)
    as (_ & _ & Hout).
  split; [exact Hid|]. split; [apply Hin; lia | apply Hout; lia].
Defined.

End MnistFacts.

(** ** The learning-rate ramp in float32 *)

Module LearningRateFacts.
Import PyFloat LearningRate.










Section Constructed.
Variable libm_pow : float -> float -> float.



End Constructed.



(** The notebook's own call, [ExponentialLearningRate(1e-5, 1e-1, 5_000)],
    for which [(1e-1 / 1e-5) ** (1 / 5000)] is the float
    [0x1.0078d5417c762p+0]: the rate passes [end_lr] after 5000 batches, one
    batch before [n_iter + 1]. *)
Example notebook_call_records_5000 :
  match fit (mk_callback (Real (S754_finite false 4511903209998178 (-52)))
                         (decimal 1 5) (decimal 1 1) [] [])
            (mk_model zero false) (repeat one (60 * 100)) with
  | Some (cb', m') =>
      length (learning_rates cb') = 50 * 100 /\ stop_training m' = true
  | None => False
  end.
Proof. vm_compute. split; reflexivity. Qed.

End LearningRateFacts.

(** ** The max-by-score reduction and the ranked list *)

Module ModelSelectorFacts.
Import ModelSelector.

Lemma score_ltb_spec (a b : score) : score_ltb a b = true <-> score_lt a b.
Proof.
  destruct a as [|x], b as [|y]; simpl; try (split; (discriminate || tauto)).
  rewrite Qlt_alt. destruct (Qcompare x y); split; congruence.
Qed.

Lemma score_lt_irrefl (a : score) : ~ score_lt a a.
Proof. destruct a; simpl; [tauto | apply Qlt_irrefl]. Qed.

Lemma score_lt_trans (a b c : score) :
  score_lt a b -> score_lt b c -> score_lt a c.
Proof.
  destruct a, b, c; simpl; try tauto. apply Qlt_trans.
Qed.

(** Whatever lies below [c] and not below [b] has [b] below [c]. *)
Lemma score_lt_cotrans (a b c : score) :
  score_lt a c -> score_lt a b \/ score_lt b c.
Proof.
  destruct a as [|x], b as [|y], c as [|z]; simpl; try tauto.
  intros Hxz. destruct (Qlt_le_dec x y) as [Hxy|Hyx]; [now left|].
  right. now apply Qle_lt_trans with x.
Qed.

Lemma worse_irrefl (a : candidate_result) : worse a a = false.
Proof.
  unfold worse. destruct (score_ltb _ _) eqn:H; [|reflexivity].
  apply score_ltb_spec in H. now apply score_lt_irrefl in H.
Qed.

Lemma worse_trans (a b c : candidate_result) :
  worse a b = true -> worse b c = true -> worse a c = true.
Proof.
  unfold worse. rewrite !score_ltb_spec. apply score_lt_trans.
Qed.

Lemma worse_cotrans (a b c : candidate_result) :
  worse a c = true -> worse a b = true \/ worse b c = true.
Proof.
  unfold worse. rewrite !score_ltb_spec. apply score_lt_cotrans.
Qed.

Lemma worse_asym (a b : candidate_result) :
  worse a b = true -> worse b a = false.
Proof.
  intros Hab. destruct (worse b a) eqn:Hba; [|reflexivity].
  pose proof (worse_trans _ _ _ Hab Hba) as H.
  now rewrite worse_irrefl in H.
Qed.

(** Not scoring below is transitive. *)
Lemma not_worse_trans (a b c : candidate_result) :
  worse a b = false -> worse b c = false -> worse a c = false.
Proof.
  intros Hab Hbc. destruct (worse a c) eqn:Hac; [|reflexivity].
  destruct (worse_cotrans a b c Hac); congruence.
Qed.

Lemma best2_assoc (a b c : candidate_result) :
  best2 (best2 a b) c = best2 a (best2 b c).
Proof.
  unfold best2.
  destruct (worse a b) eqn:Hab, (worse b c) eqn:Hbc; rewrite ?Hab, ?Hbc;
    try reflexivity.
  - now rewrite (worse_trans _ _ _ Hab Hbc).
  - now rewrite (not_worse_trans _ _ _ Hab Hbc).
Qed.

Lemma best2_comm_no_tie (a b : candidate_result) :
  tie a b = false -> best2 a b = best2 b a.
Proof.
  unfold tie, best2. intros Ht.
  destruct (worse a b) eqn:Hab.
  - now rewrite (worse_asym _ _ Hab).
  - destruct (worse b a) eqn:Hba; [reflexivity | discriminate].
Qed.

Lemma best2_comm_tie (a b : candidate_result) :
  tie (best2 a b) (best2 b a) = true.
Proof.
  unfold tie, best2.
  destruct (worse a b) eqn:Hab, (worse b a) eqn:Hba;
    rewrite ?worse_irrefl, ?Hab, ?Hba; try reflexivity.
  now rewrite (worse_asym _ _ Hab) in Hba.
Qed.

(** The reduction returns the first result of maximal score: everything
    before it scores strictly lower, nothing after it scores higher. *)
Lemma fold_best2_first_max (rest : list candidate_result) :
  forall r, exists before after,
    r :: rest = before ++ fold_left best2 rest r :: after /\
    Forall (fun x => worse x (fold_left best2 rest r) = true) before /\
    Forall (fun x => worse (fold_left best2 rest r) x = false) after.
Proof.
  induction rest as [|x rest IH] using rev_ind; intros r.
  - exists [], []. simpl. auto.
  - destruct (IH r) as (before & after & Heq & Hb & Ha).
    rewrite fold_left_app. simpl.
    set (w := fold_left best2 rest r) in *.
    unfold best2. destruct (worse w x) eqn:Hwx.
    + exists (before ++ w :: after), []. repeat split; auto.
      * rewrite <- Heq. reflexivity.
      * apply Forall_app. split; [|constructor].
        -- eapply Forall_impl; [|exact Hb]. intros y Hy. simpl in Hy.
           eapply worse_trans; eauto.
        -- exact Hwx.
        -- eapply Forall_impl; [|exact Ha]. intros y Hy. simpl in Hy.
           destruct (worse_cotrans w y x Hwx); congruence.
    + exists before, (after ++ [x]). repeat split; auto.
      * rewrite app_comm_cons, Heq, <- app_assoc. reflexivity.
      * apply Forall_app. split; auto.
Qed.

Lemma best_first_max (results : list candidate_result) (w : candidate_result) :
  best results = Some w ->
  exists before after,
    results = before ++ w :: after /\
    Forall (fun x => worse x w = true) before /\
    Forall (fun x => worse w x = false) after.
Proof.
  destruct results as [|r rest]; simpl; [discriminate|].
  intros [= <-]. apply fold_best2_first_max.
Qed.

Lemma best_is_max (results : list candidate_result) (w : candidate_result) :
  best results = Some w ->
  In w results /\ forall x, In x results -> worse w x = false.
Proof.
  intros Hw. destruct (best_first_max _ _ Hw) as (before & after & -> & Hb & Ha).
  split; [apply in_elt|].
  intros x Hx. apply in_app_or in Hx. destruct Hx as [Hx|[<-|Hx]].
  - rewrite Forall_forall in Hb. apply worse_asym. auto.
  - apply worse_irrefl.
  - rewrite Forall_forall in Ha. auto.
Qed.

(** Evaluating the same candidate results in another order gives a winner
    that ties with the first one, and the same winner when no other result
    reaches its score. *)
Lemma best_permutation (rs rs' : list candidate_result) (w : candidate_result) :
  Permutation rs rs' -> best rs = Some w ->
  exists w', best rs' = Some w' /\ tie w w' = true /\ In w' rs /\
             ((forall x, In x rs -> worse x w = false -> x = w) -> w' = w).
Proof.
  intros Hperm Hw.
  destruct (best_is_max _ _ Hw) as [Hin Hmax].
  destruct rs' as [|r' rest'].
  { apply Permutation_sym, Permutation_nil in Hperm. subst rs. discriminate. }
  exists (fold_left best2 rest' r').
  destruct (best_is_max (r' :: rest') _ eq_refl) as [Hin' Hmax'].
  set (w' := fold_left best2 rest' r') in *.
  assert (Hw'rs : In w' rs) by (eapply Permutation_in; [symmetry|]; eauto).
  assert (Hwrs' : In w (r' :: rest')) by (eapply Permutation_in; eauto).
  split; [reflexivity|]. split; [|split; [exact Hw'rs|]].
  - unfold tie. now rewrite (Hmax _ Hw'rs), (Hmax' _ Hwrs').
  - intros Huniq. apply Huniq; [exact Hw'rs|]. exact (Hmax' _ Hwrs').
Qed.

(** *** The ranked list *)

Lemma insert_permutation (r : candidate_result) (l : list candidate_result) :
  Permutation (insert r l) (r :: l).
Proof.
  induction l as [|x l IH]; simpl; [reflexivity|].
  destruct (worse r x); [|reflexivity].
  rewrite IH. apply perm_swap.
Qed.

Lemma rank_permutation (results : list candidate_result) :
  Permutation (rank results) results.
Proof.
  induction results as [|r rs IH]; simpl; [constructor|].
  rewrite insert_permutation. now constructor.
Qed.

Lemma insert_descending (r : candidate_result) (l : list candidate_result) :
  descending l -> descending (insert r l).
Proof.
  unfold descending. induction 1 as [|x l Hl IH Hx]; simpl.
  - repeat constructor.
  - destruct (worse r x) eqn:Hrx.
    + constructor; [exact IH|].
      eapply Permutation_Forall; [symmetry; apply insert_permutation|].
      constructor; [now apply worse_asym | exact Hx].
    + constructor; [now constructor|].
      constructor; [exact Hrx|].
      eapply Forall_impl; [|exact Hx]. intros y Hy. simpl in Hy.
      eapply not_worse_trans; eauto.
Qed.

Lemma rank_descending (results : list candidate_result) :
  descending (rank results).
Proof.
  induction results as [|r rs IH]; simpl; [constructor|].
  now apply insert_descending.
Qed.

Lemma tie_above (c r x : candidate_result) :
  tie c r = true -> worse r x = true -> tie c x = false.
Proof.
  unfold tie. intros Ht Hrx.
  apply andb_true_iff in Ht. destruct Ht as [_ Hrc].
  apply negb_true_iff in Hrc.
  destruct (worse_cotrans r c x Hrx) as [H|H]; [congruence|].
  now rewrite H.
Qed.

(** Inserting [r] puts it in front of the results it ties with. *)
Lemma filter_insert (c r : candidate_result) (l : list candidate_result) :
  filter (tie c) (insert r l) = filter (tie c) (r :: l).
Proof.
  induction l as [|x l IH]; [reflexivity|].
  cbn [insert]. destruct (worse r x) eqn:Hrx; [|reflexivity].
  cbn [filter] in *. rewrite IH.
  destruct (tie c r) eqn:Hcr; [|reflexivity].
  now rewrite (tie_above c r x Hcr Hrx).
Qed.

(** Stability: the results that tie with any given one keep the order in
    which they were evaluated. *)
Lemma rank_stable (c : candidate_result) (results : list candidate_result) :
  filter (tie c) (rank results) = filter (tie c) results.
Proof.
  induction results as [|r rs IH]; [reflexivity|].
  cbn [rank fold_right]. fold (rank rs).
  rewrite filter_insert. cbn [filter]. now rewrite IH.
Qed.

Lemma fold_best2_assoc (rest : list candidate_result) :
  forall a b, fold_left best2 rest (best2 a b) = best2 a (fold_left best2 rest b).
Proof.
  induction rest as [|x rest IH]; intros a b; simpl; [reflexivity|].
  now rewrite best2_assoc, IH.
Qed.

(** The ranked list starts with the best result. *)
Lemma rank_head (results : list candidate_result) :
  hd_error (rank results) = best results.
Proof.
  induction results as [|r rs IH]; [reflexivity|].
  cbn [rank fold_right]. fold (rank rs).
  destruct (rank rs) as [|x ranked] eqn:Hrank.
  - destruct rs as [|y rs']; [reflexivity|]. simpl in IH. discriminate.
  - destruct rs as [|y rs']; [discriminate|].
    cbn [best] in IH. injection IH as ->.
    cbn [insert best fold_left]. rewrite fold_best2_assoc.
    set (x := fold_left best2 rs' y). unfold best2.
    destruct (worse r x); reflexivity.
Qed.

(** C7: the max-by-score reduction is associative; it is commutative
    whenever the two results do not tie, and up to a tie always.  Evaluating
    the same candidate results in any other order yields a winner that ties
    with the original one, and the very same winner when no other result
    reaches its score.  Among tied results the first encountered wins:
    everything evaluated before the winner scores strictly lower, nothing
    after it scores higher.  The ranked list is a permutation of the results
    in descending order of score that keeps tied results in evaluation order,
    and it starts with the winner. *)
Theorem max_by_score_reduction :
  (forall a b c, best2 (best2 a b) c = best2 a (best2 b c)) /\
  (forall a b, tie a b = false -> best2 a b = best2 b a) /\
  (forall a b, tie (best2 a b) (best2 b a) = true) /\
  (forall rs rs' w,
      Permutation rs rs' -> best rs = Some w ->
      exists w', best rs' = Some w' /\ tie w w' = true /\ In w' rs /\
                 ((forall x, In x rs -> worse x w = false -> x = w) -> w' = w)) /\
  (forall rs w,
      best rs = Some w ->
      exists before after,
        rs = before ++ w :: after /\
        Forall (fun x => worse x w = true) before /\
        Forall (fun x => worse w x = false) after) /\
  (forall rs,
      Permutation (rank rs) rs /\
      StronglySorted (fun a b => worse a b = false) (rank rs) /\
      (forall c, filter (tie c) (rank rs) = filter (tie c) rs) /\
      hd_error (rank rs) = best rs).
Proof.
  split; [exact best2_assoc|].
  split; [exact best2_comm_no_tie|].
  split; [exact best2_comm_tie|].
  split; [exact best_permutation|].
  split; [exact best_first_max|].
  intros rs. split; [apply rank_permutation|].
  split; [apply rank_descending|].
  split; [intros c; apply rank_stable | apply rank_head].
Qed.

Module ExampleFacts.
Import String Example.
Local Open Scope string_scope.

(** The spec's end-to-end example: three candidate results, the best
    configuration is [{param: 2}]. *)
Example best_of_grid :
  best_configuration evaluated = Some [("param", VInt 2)] /\
  List.length (rank evaluated) = 3 /\
  map config (rank evaluated)
  = [[("param", VInt 2)]; [("param", VInt 3)]; [("param", VInt 1)]].
Proof. vm_compute. repeat split. Qed.

(** Two tied candidates: the one evaluated first wins and is ranked first,
    whatever the order, so the winner changes with the order here. *)
Example tie_first_encountered :
  best [candidate 1 (1 # 2); candidate 2 (1 # 2)] = Some (candidate 1 (1 # 2)) /\
  best [candidate 2 (1 # 2); candidate 1 (1 # 2)] = Some (candidate 2 (1 # 2)) /\
  rank [candidate 2 (2 # 4); candidate 3 1; candidate 1 (1 # 2)]
  = [candidate 3 1; candidate 2 (2 # 4); candidate 1 (1 # 2)].
Proof. vm_compute. repeat split. Qed.

(** A failed candidate, scored negative infinity, is ranked last. *)
Example failed_ranked_last :
  rank [mk_result [("param", VInt 1)] NegInf None; candidate 2 0]
  = [candidate 2 0; mk_result [("param", VInt 1)] NegInf None].
Proof. vm_compute. reflexivity. Qed.

End ExampleFacts.

Lemma max_by_score_reduction_witness :
  exists w', best (rev Example.evaluated) = Some w' /\
             w' = Example.candidate 2 (9 # 10).
Proof.
  destruct max_by_score_reduction as (_ & _ & _ & Hperm & _).
  destruct (Hperm Example.evaluated (rev Example.evaluated)
                  (Example.candidate 2 (9 # 10)))
    as (w' & Hbest & _ & _ & Hsame).
  - apply Permutation_rev.
  - reflexivity.
  - exists w'. split; [exact Hbest|]. apply Hsame.
    intros x Hx Hscore. simpl in Hx.
    destruct Hx as [<-|[<-|[<-|[]]]];
      [discriminate Hscore | reflexivity | discriminate Hscore].
Defined.

End ModelSelectorFacts.

(** ** Entries of the array operations *)

Module NumpyIndexFacts.
Import Numpy NumpyFacts NumpyIndex.
Section EntryFacts.
Context {A : Type}.
Variable zero : A.

Lemma nth_chunk (n w i : nat) (v : list A) :
  i < n -> nth i (chunk n w v) [] = firstn w (skipn (i * w) v).
Proof.
  revert i v. induction n as [|n IH]; intros i v Hi; [lia|].
  destruct i as [|i]; simpl; [reflexivity|].
  rewrite IH by lia. rewrite skipn_skipn. do 2 f_equal. lia.
Qed.

Lemma nth_map_nil (f : list A -> list A) (i : nat) (l : list (list A)) :
  f [] = [] -> nth i (map f l) [] = f (nth i l []).
Proof. intros Hf. rewrite <- Hf at 1. apply map_nth. Qed.

(** Entries of a flat vector cut into rows. *)
Lemma entry_reshape2 (r c : nat) (v : list A) (a : ndarray A) (i j : nat) :
  reshape2 r c v = Some a -> i < r -> j < c ->
  entry zero a i j = nth (c * i + j) v zero.
Proof.
  unfold reshape2. destruct (length v =? r * c); [|discriminate].
  intros [= <-] Hi Hj. unfold entry. simpl.
  rewrite nth_chunk by assumption.
  rewrite nth_firstn, nth_skipn.
  rewrite (proj2 (Nat.ltb_lt _ _) Hj). f_equal. lia.
Qed.

Lemma nth_concat_rows (c : nat) (rs : list (list A)) :
  Forall (fun r => length r = c) rs ->
  forall i j, j < c ->
  nth (c * i + j) (concat rs) zero = nth j (nth i rs []) zero.
Proof.
  induction 1 as [|r rs Hr _ IH]; intros i j Hj; simpl.
  - destruct i, (c * _ + j); destruct j; reflexivity.
  - destruct i as [|i].
    + rewrite Nat.mul_0_r. simpl. apply app_nth1. lia.
    + replace (c * S i + j) with (length r + (c * i + j)) by lia.
      rewrite app_nth2_plus. now apply IH.
Qed.

(** Entries of an array laid out flat. *)
Lemma entry_reshape1 (n : nat) (a : ndarray A) (v : list A) (i j : nat) :
  well_shaped a -> reshape1 n a = Some v -> j < ncols a ->
  nth (ncols a * i + j) v zero = entry zero a i j.
Proof.
  unfold reshape1. intros Hw. destruct (_ =? _); [|discriminate].
  intros [= <-] Hj. now apply nth_concat_rows.
Qed.

Lemma entry_zeros (r c i j : nat) : entry zero (zeros zero r c) i j = zero.
Proof.
  unfold entry, zeros. simpl.
  destruct (Nat.lt_ge_cases i r) as [Hi|Hi].
  - rewrite (nth_indep _ [] (repeat zero c)) by now rewrite repeat_length.
    rewrite nth_repeat. apply nth_repeat.
  - rewrite (nth_overflow (repeat (repeat zero c) r) [])
      by now rewrite repeat_length.
    destruct j; reflexivity.
Qed.

Lemma entry_cols_to (k : Z) (a : ndarray A) (i j : nat) :
  entry zero (cols_to k a) i j
  = if j <? slice_bound (ncols a) k then entry zero a i j else zero.
Proof.
  unfold entry, cols_to. simpl.
  rewrite nth_map_nil by apply firstn_nil. apply nth_firstn.
Qed.

Lemma entry_cols_from (k : Z) (a : ndarray A) (i j : nat) :
  entry zero (cols_from k a) i j = entry zero a i (slice_bound (ncols a) k + j).
Proof.
  unfold entry, cols_from. simpl.
  rewrite nth_map_nil by apply skipn_nil. apply nth_skipn.
Qed.

Lemma entry_rows_to (k : Z) (a : ndarray A) (i j : nat) :
  entry zero (rows_to k a) i j
  = if i <? slice_bound (nrows a) k then entry zero a i j else zero.
Proof.
  unfold entry, rows_to. simpl. rewrite nth_firstn.
  destruct (i <? _); [reflexivity | now destruct j].
Qed.

Lemma entry_rows_from (k : Z) (a : ndarray A) (i j : nat) :
  entry zero (rows_from k a) i j = entry zero a (slice_bound (nrows a) k + i) j.
Proof. unfold entry, rows_from. simpl. now rewrite nth_skipn. Qed.

Lemma nth_zip_app (c1 : nat) (xs ys : list (list A)) :
  length xs = length ys -> Forall (fun r => length r = c1) xs ->
  forall i j,
    nth j (nth i (zip_app xs ys) []) zero
    = if j <? c1 then nth j (nth i xs []) zero
      else nth (j - c1) (nth i ys []) zero.
Proof.
  revert ys. induction xs as [|x xs IH]; intros [|y ys] Hl Hx i j;
    simpl in *; try discriminate.
  - assert (E : forall k, nth k (nth i (@nil (list A)) []) zero = zero)
      by (intros k; destruct i, k; reflexivity).
    rewrite !E. now destruct (j <? c1).
  - inversion Hx; subst. destruct i as [|i].
    + destruct (Nat.ltb_spec j (length x)).
      * now apply app_nth1.
      * now apply app_nth2.
    + apply IH; auto.
Qed.

Lemma entry_hstack (a b ab : ndarray A) (i j : nat) :
  well_shaped a -> hstack a b = Some ab ->
  entry zero ab i j
  = if j <? ncols a then entry zero a i j else entry zero b i (j - ncols a).
Proof.
  unfold hstack. intros Hw. destruct (Nat.eqb_spec (nrows a) (nrows b)) as [Hr|];
    [|discriminate].
  intros [= <-]. unfold entry. simpl. now apply nth_zip_app.
Qed.

Lemma entry_vstack (a b ab : ndarray A) (i j : nat) :
  vstack a b = Some ab ->
  entry zero ab i j
  = if i <? nrows a then entry zero a i j else entry zero b (i - nrows a) j.
Proof.
  unfold vstack. destruct (_ =? _); [|discriminate].
  intros [= <-]. unfold entry, nrows. simpl.
  destruct (Nat.ltb_spec i (length (rows a))).
  - now rewrite app_nth1.
  - now rewrite app_nth2.
Qed.

(** Two flat vectors of the same length [r * c] that agree entry by entry
    are equal. *)
Lemma flat_ext (r c : nat) (v w : list A) :
  length v = r * c -> length w = r * c ->
  (forall i j, i < r -> j < c -> nth (c * i + j) v zero = nth (c * i + j) w zero) ->
  v = w.
Proof.
  intros Hv Hw H. apply (nth_ext _ _ zero zero); [congruence|].
  intros n Hn. rewrite Hv in Hn.
  assert (Hc : c <> 0) by (intros ->; lia).
  rewrite (Nat.div_mod_eq n c). apply H.
  - apply Nat.Div0.div_lt_upper_bound. lia.
  - now apply Nat.mod_upper_bound.
Qed.

End EntryFacts.
End NumpyIndexFacts.

(** ** [shift], pixel by pixel *)

Module ShiftPixelFacts.
Import Numpy NumpyFacts NumpyIndex NumpyIndexFacts Mnist MnistFacts.
Section ShiftPixels.
Context {A : Type}.
Variable zero : A.

(** Settles the comparisons of integers that guard an entry. *)
Ltac guards :=
  repeat match goal with
         | |- context [(?a <=? ?b)%Z] => destruct (Z.leb_spec a b)
         | |- context [(?a <? ?b)%Z] => destruct (Z.ltb_spec a b)
         | |- context [?a <? ?b] => destruct (Nat.ltb_spec a b)
         end;
  cbn [andb]; try lia; try reflexivity.

Lemma shift_columns_entry (d0 : Z) (image image' : ndarray A) (i j : nat) :
  has_shape image 28 28 -> (Z.abs d0 <= 28)%Z ->
  shift_columns zero d0 image = Some image' -> j < 28 ->
  entry zero image' i j
  = if ((0 <=? Z.of_nat j - d0) && (Z.of_nat j - d0 <? 28))%Z
    then entry zero image i (Z.to_nat (Z.of_nat j - d0)) else zero.
Proof.
  intros (Hr & Hc & Hw) Hd. unfold shift_columns.
  destruct (Z.gtb_spec d0 0) as [Hpos|Hnpos].
  - intros Hst Hj.
    rewrite (entry_hstack zero _ _ _ i j (proj2 (proj2 (zeros_shape zero _ _))) Hst).
    cbn [ncols zeros]. rewrite entry_zeros, entry_cols_to, Hc.
    unfold slice_bound. guards. f_equal. lia.
  - destruct (Z.ltb_spec d0 0) as [Hneg|Hzero].
    + intros Hst Hj.
      assert (Hw' : well_shaped (cols_from (- d0) image))
        by (eapply cols_from_shape; repeat split; eauto).
      rewrite (entry_hstack zero _ _ _ i j Hw' Hst).
      cbn [ncols cols_from]. rewrite entry_zeros, entry_cols_from, Hc.
      unfold slice_bound. guards. f_equal. lia.
    + intros [= <-] Hj. replace d0 with 0%Z by lia.
      rewrite Z.sub_0_r, Nat2Z.id. guards.
Qed.

Lemma shift_rows_entry (d1 : Z) (image image' : ndarray A) (i j : nat) :
  has_shape image 28 28 -> (Z.abs d1 <= 28)%Z ->
  shift_rows zero d1 image = Some image' -> i < 28 ->
  entry zero image' i j
  = if ((0 <=? Z.of_nat i + d1) && (Z.of_nat i + d1 <? 28))%Z
    then entry zero image (Z.to_nat (Z.of_nat i + d1)) j else zero.
Proof.
  intros (Hr & Hc & Hw) Hd. unfold shift_rows.
  destruct (Z.gtb_spec d1 0) as [Hpos|Hnpos].
  - intros Hst Hi. rewrite (entry_vstack zero _ _ _ i j Hst).
    replace (nrows (rows_from d1 image)) with (28 - slice_bound 28 d1)
      by (symmetry; eapply rows_from_shape; repeat split; eauto).
    rewrite entry_zeros, entry_rows_from, Hr.
    unfold slice_bound. guards. f_equal. lia.
  - destruct (Z.ltb_spec d1 0) as [Hneg|Hzero].
    + intros Hst Hi. rewrite (entry_vstack zero _ _ _ i j Hst).
      replace (nrows (zeros zero (Z.abs_nat d1) 28)) with (Z.abs_nat d1)
        by (symmetry; apply zeros_shape).
      rewrite entry_zeros, entry_rows_to, Hr.
      unfold slice_bound. guards. f_equal. lia.
    + intros [= <-] Hi. replace d1 with 0%Z by lia.
      rewrite Z.add_0_r, Nat2Z.id. guards.
Qed.

(** A call of [shift] that returns was made with shifts of at most 28. *)
Lemma shift_some_in_range (v out : list A) (d0 d1 : Z) :
  length v = 784 -> shift zero v (d0, d1) = Some out ->
  (Z.abs d0 <= 28 /\ Z.abs d1 <= 28)%Z.
Proof.
  intros Hlen Hs.
  destruct (Z_le_gt_dec (Z.abs d0) 28), (Z_le_gt_dec (Z.abs d1) 28); auto;
    rewrite (shift_out_of_range zero v d0 d1 Hlen) in Hs by lia; discriminate.
Qed.

Lemma shift_entry (v out : list A) (direction : Z * Z) (i j : nat) :
  length v = 784 -> shift zero v direction = Some out ->
  i < 28 -> j < 28 ->
  nth (28 * i + j) out zero = shift_source zero v direction i j.
Proof.
  destruct direction as [d0 d1]. intros Hlen Hs Hi Hj.
  destruct (shift_some_in_range v out d0 d1 Hlen Hs) as [H0 H1].
  unfold shift in Hs. cbn [fst snd] in Hs.
  destruct (reshape2_shape 28 28 v Hlen) as (a & Ha & Hsa & _).
  rewrite Ha in Hs. cbn [bind] in Hs.
  destruct (shift_columns_shape zero d0 a Hsa) as (b & Hb & Hsb).
  rewrite Hb in Hs. cbn [bind] in Hs.
  replace (Nat.max 28 (Z.abs_nat d0)) with 28 in Hsb by lia.
  destruct (shift_rows_shape zero d1 b Hsb) as (c & Hc & Hsc).
  rewrite Hc in Hs. cbn [bind] in Hs.
  replace (Nat.max 28 (Z.abs_nat d1)) with 28 in Hsc by lia.
  destruct Hsc as (Hrc & Hcc & Hwc).
  pose proof (entry_reshape1 zero 784 c out i j Hwc Hs) as Hout.
  rewrite Hcc in Hout. rewrite Hout by assumption.
  rewrite (shift_rows_entry d1 b c i j Hsb H1 Hc Hi).
  unfold shift_source. cbn [fst snd].
  destruct (Z.leb_spec 0 (Z.of_nat i + d1)); cbn [andb]; [|reflexivity].
  destruct (Z.ltb_spec (Z.of_nat i + d1) 28); cbn [andb]; [|reflexivity].
  rewrite (shift_columns_entry d0 a b _ j Hsa H0 Hb Hj).
  destruct (Z.leb_spec 0 (Z.of_nat j - d0)); cbn [andb]; [|reflexivity].
  destruct (Z.ltb_spec (Z.of_nat j - d0) 28); cbn [andb]; [|reflexivity].
  rewrite (entry_reshape2 zero 28 28 v a _ _ Ha) by lia.
  f_equal. lia.
Qed.

(** X1: What [shift] returns, entry by entry.  For an image of 784 entries
    and shifts of at most 28 places, [shift] returns 784 entries, and the
    entry at row [i], column [j] of the result is the entry of the input at
    row [i + direction[1]], column [j - direction[0]], and zero where that
    place is outside the image.  So a positive [direction[0]] moves the image
    to the right, and a positive [direction[1]] moves it up. *)
Theorem shift_pixel (v : list A) (d0 d1 : Z) :
  length v = 784 -> (Z.abs d0 <= 28)%Z -> (Z.abs d1 <= 28)%Z ->
  exists out,
    shift zero v (d0, d1) = Some out /\
    length out = 784 /\
    forall i j, i < 28 -> j < 28 ->
      nth (28 * i + j) out zero = shift_source zero v (d0, d1) i j.
Proof.
  intros Hlen H0 H1.
  destruct (shift_in_range zero v d0 d1 Hlen H0 H1) as (out & Hs & Hlo).
  exists out. split; [exact Hs|]. split; [exact Hlo|].
  intros i j Hi Hj. now apply shift_entry.
Qed.

Lemma shift_source_pixel_at (v : list A) (direction : Z * Z) (i j : nat) :
  shift_source zero v direction i j
  = pixel_at zero v (Z.of_nat i + snd direction) (Z.of_nat j - fst direction).
Proof. reflexivity. Qed.

(** The same with integer coordinates, zero outside the image on both
    sides. *)
Lemma shift_pixel_at (v out : list A) (direction : Z * Z) (r c : Z) :
  length v = 784 -> shift zero v direction = Some out ->
  pixel_at zero out r c
  = if ((0 <=? r) && (r <? 28) && (0 <=? c) && (c <? 28))%Z
    then pixel_at zero v (r + snd direction) (c - fst direction)
    else zero.
Proof.
  intros Hlen Hs. unfold pixel_at at 1.
  destruct ((0 <=? r) && (r <? 28) && (0 <=? c) && (c <? 28))%Z eqn:Hin;
    [|reflexivity].
  apply andb_prop in Hin. destruct Hin as [Hin Hc2].
  apply andb_prop in Hin. destruct Hin as [Hin Hc1].
  apply andb_prop in Hin. destruct Hin as [Hr1 Hr2].
  apply Z.leb_le in Hr1, Hc1. apply Z.ltb_lt in Hr2, Hc2.
  replace (Z.to_nat (28 * r + c)) with (28 * Z.to_nat r + Z.to_nat c) by lia.
  rewrite (shift_entry v out direction) by (auto; lia).
  rewrite shift_source_pixel_at, !Z2Nat.id by lia. reflexivity.
Qed.

Lemma in_frame_true (r c : Z) :
  in_frame r c = true -> (0 <= r < 28 /\ 0 <= c < 28)%Z.
Proof. unfold in_frame. lia. Qed.

Lemma in_frame_false (r c : Z) :
  in_frame r c = false -> ~ (0 <= r < 28 /\ 0 <= c < 28)%Z.
Proof. unfold in_frame. lia. Qed.

Lemma pixel_at_frame (v : list A) (r c : Z) :
  pixel_at zero v r c
  = if in_frame r c then nth (Z.to_nat (28 * r + c)) v zero else zero.
Proof. reflexivity. Qed.

Lemma shift_pixel_frame (v out : list A) (direction : Z * Z) (r c : Z) :
  length v = 784 -> shift zero v direction = Some out ->
  pixel_at zero out r c
  = if in_frame r c
    then pixel_at zero v (r + snd direction) (c - fst direction)
    else zero.
Proof. apply shift_pixel_at. Qed.

(** Splits on every frame test of the goal and leaves linear arithmetic. *)
Ltac frames :=
  repeat match goal with
         | |- context [in_frame ?r ?c] =>
             let H := fresh "Hframe" in
             destruct (in_frame r c) eqn:H;
             [apply in_frame_true in H | apply in_frame_false in H]
         end;
  try reflexivity; try lia; try (f_equal; lia).

Lemma nth_pixel_at (v : list A) (i j : nat) :
  i < 28 -> j < 28 ->
  nth (28 * i + j) v zero = pixel_at zero v (Z.of_nat i) (Z.of_nat j).
Proof.
  intros Hi Hj. rewrite pixel_at_frame. frames.
Qed.

(** X2: A shift in both directions is the horizontal shift followed by the
    vertical one, and just as well the vertical shift followed by the
    horizontal one. *)
Theorem shift_commutes (v : list A) (d0 d1 : Z) :
  length v = 784 -> (Z.abs d0 <= 28)%Z -> (Z.abs d1 <= 28)%Z ->
  bind (shift zero v (d0, 0%Z)) (fun w => shift zero w (0%Z, d1))
  = shift zero v (d0, d1) /\
  bind (shift zero v (0%Z, d1)) (fun w => shift zero w (d0, 0%Z))
  = shift zero v (d0, d1).
Proof.
  intros Hlen H0 H1.
  destruct (shift_in_range zero v d0 d1 Hlen H0 H1) as (out & Hout & Hlo).
  destruct (shift_in_range zero v d0 0 Hlen H0) as (h & Hh & Hlh); [lia|].
  destruct (shift_in_range zero v 0 d1 Hlen) as (u & Hu & Hlu); [lia|lia|].
  destruct (shift_in_range zero h 0 d1 Hlh) as (hu & Hhu & Hlhu); [lia|lia|].
  destruct (shift_in_range zero u d0 0 Hlu H0) as (uh & Huh & Hluh); [lia|].
  rewrite Hh, Hu, Hout. cbn [bind]. rewrite Hhu, Huh.
  split; f_equal; apply (flat_ext zero 28 28); auto; intros i j Hi Hj;
    rewrite !nth_pixel_at by assumption.
  - rewrite (shift_pixel_frame h hu _ _ _ Hlh Hhu),
            (shift_pixel_frame v out _ _ _ Hlen Hout).
    cbn [fst snd].
    destruct (in_frame (Z.of_nat i) (Z.of_nat j)); [|reflexivity].
    rewrite (shift_pixel_frame v h _ _ _ Hlen Hh). cbn [fst snd].
    rewrite !pixel_at_frame. frames.
  - rewrite (shift_pixel_frame u uh _ _ _ Hlu Huh),
            (shift_pixel_frame v out _ _ _ Hlen Hout).
    cbn [fst snd].
    destruct (in_frame (Z.of_nat i) (Z.of_nat j)); [|reflexivity].
    rewrite (shift_pixel_frame v u _ _ _ Hlen Hu). cbn [fst snd].
    rewrite !pixel_at_frame. frames.
Qed.

(** X3: Shifting back does not restore the image: the entries that the first
    shift pushed out of the frame come back as zeros, the others come back
    unchanged. *)
Theorem shift_back_loses_border (v : list A) (d0 d1 : Z) :
  length v = 784 -> (Z.abs d0 <= 28)%Z -> (Z.abs d1 <= 28)%Z ->
  exists back,
    bind (shift zero v (d0, d1)) (fun w => shift zero w (- d0, - d1)%Z)
    = Some back /\
    length back = 784 /\
    forall i j, i < 28 -> j < 28 ->
      nth (28 * i + j) back zero
      = if in_frame (Z.of_nat i - d1) (Z.of_nat j + d0)
        then nth (28 * i + j) v zero else zero.
Proof.
  intros Hlen H0 H1.
  destruct (shift_in_range zero v d0 d1 Hlen H0 H1) as (w & Hw & Hlw).
  destruct (shift_in_range zero w (- d0) (- d1) Hlw) as (back & Hb & Hlb);
    [lia|lia|].
  exists back. rewrite Hw. cbn [bind]. repeat split; auto.
  intros i j Hi Hj. rewrite !nth_pixel_at by assumption.
  rewrite (shift_pixel_frame w back _ _ _ Hlw Hb). cbn [fst snd].
  rewrite (shift_pixel_frame v w _ _ _ Hlen Hw). cbn [fst snd].
  rewrite !pixel_at_frame. frames.
Qed.

End ShiftPixels.

Lemma shift_pixel_witness :
  exists out,
    shift 0%Z ([7] ++ repeat 0 26 ++ [9] ++ repeat 0 756)%Z (1, 0)%Z = Some out /\
    length out = 784 /\
    forall i j, i < 28 -> j < 28 ->
      nth (28 * i + j) out 0%Z
      = shift_source 0%Z ([7] ++ repeat 0 26 ++ [9] ++ repeat 0 756)%Z
                     (1, 0)%Z i j.
Proof.
  apply (shift_pixel 0%Z ([7] ++ repeat 0 26 ++ [9] ++ repeat 0 756)%Z 1 0);
    [reflexivity | lia | lia].
Defined.

Lemma shift_commutes_witness :
  bind (shift 0%Z (repeat 5%Z 784) (2, 0)%Z) (fun w => shift 0%Z w (0, -3)%Z)
  = shift 0%Z (repeat 5%Z 784) (2, -3)%Z /\
  bind (shift 0%Z (repeat 5%Z 784) (0, -3)%Z) (fun w => shift 0%Z w (2, 0)%Z)
  = shift 0%Z (repeat 5%Z 784) (2, -3)%Z.
Proof.
  apply (shift_commutes 0%Z (repeat 5%Z 784) 2 (-3)); [reflexivity | lia | lia].
Defined.

Lemma shift_back_loses_border_witness :
  exists back,
    bind (shift 0%Z (repeat 5%Z 784) (1, 0)%Z)
         (fun w => shift 0%Z w (- (1), - 0)%Z) = Some back /\
    nth (28 * 0 + 27) back 0%Z = 0%Z /\
    nth (28 * 0 + 26) back 0%Z = 5%Z.
Proof.
  destruct (shift_back_loses_border 0%Z (repeat 5%Z 784) 1 0)
    as (back & Hb & _ & Hpix); [reflexivity | lia | lia |].
  exists back. split; [exact Hb|]. split.
  - rewrite (Hpix 0 27) by lia. reflexivity.
  - rewrite (Hpix 0 26) by lia. reflexivity.
Defined.

End ShiftPixelFacts.

(** ** The augmentation cell keeps every image with its label *)

Module MnistAugmentFacts.
Import Numpy Mnist MnistFacts MnistAugment.
Section CellFacts.
Context {A L : Type}.
Variable zero : A.

Lemma nth_error_concat_blocks {T : Type} (n : nat) (blocks : list (list T)) :
  Forall (fun b => length b = n) blocks ->
  forall k r, r < n ->
  nth_error (concat blocks) (n * k + r) = nth_error (nth k blocks []) r.
Proof.
  induction 1 as [|b blocks Hb _ IH]; intros k r Hr; simpl.
  - destruct k, r, (n * _ + _); reflexivity.
  - destruct k as [|k].
    + rewrite Nat.mul_0_r. simpl. apply nth_error_app1. lia.
    + replace (n * S k + r) with (length b + (n * k + r)) by lia.
      rewrite nth_error_app2 by lia.
      replace (length b + (n * k + r) - length b) with (n * k + r) by lia.
      now apply IH.
Qed.

Lemma shift_all_length (d : Z * Z) (images out : list (list A)) :
  shift_all zero d images = Some out -> length out = length images.
Proof.
  revert out. induction images as [|x images IH]; intros out; simpl.
  - now intros [= <-].
  - destruct (shift zero x d); [|discriminate]. simpl.
    destruct (shift_all zero d images); [|discriminate]. simpl.
    intros [= <-]. simpl. f_equal. now apply IH.
Qed.

Lemma shift_all_nth_error (d : Z * Z) (images out : list (list A)) (i : nat)
  (x : list A) :
  shift_all zero d images = Some out -> nth_error images i = Some x ->
  nth_error out i = shift zero x d.
Proof.
  revert out i. induction images as [|y images IH]; intros out i; simpl.
  - destruct i; discriminate.
  - destruct (shift zero y d) as [s|] eqn:Hs; [|discriminate]. simpl.
    destruct (shift_all zero d images) as [others|]; [|discriminate]. simpl.
    intros [= <-]. destruct i as [|i]; simpl.
    + now intros [= <-].
    + now apply IH.
Qed.

Lemma take_indices_nth_error {T : Type} (a out : list T) (idx : list nat)
  (q p : nat) :
  take_indices a idx = Some out -> nth_error idx q = Some p ->
  nth_error out q = nth_error a p /\ p < length a.
Proof.
  revert out q. induction idx as [|p0 idx IH]; intros out q; simpl.
  - destruct q; discriminate.
  - destruct (nth_error a p0) as [x|] eqn:Hx; [|discriminate].
    destruct (take_indices a idx) as [xs|]; [|discriminate].
    intros [= <-]. destruct q as [|q]; simpl.
    + intros [= <-]. split; [now symmetry|].
      apply nth_error_Some. congruence.
    + now apply IH.
Qed.

Lemma take_indices_some {T : Type} (a : list T) (idx : list nat) :
  Forall (fun p => p < length a) idx ->
  exists out, take_indices a idx = Some out /\ length out = length idx.
Proof.
  induction 1 as [|p idx Hp _ (out & Hout & Hlen)]; simpl.
  - now exists [].
  - destruct (nth_error a p) as [x|] eqn:Hx.
    + rewrite Hout. exists (x :: out). simpl. auto.
    + apply nth_error_None in Hx. lia.
Qed.

(** The images and labels before the shuffle: five blocks, the training
    images and their four shifts, each with the training labels. *)
Lemma append_all_blocks (X_train : list (list A)) (y_train : list L) :
  length X_train = length y_train ->
  Forall (fun image => length image = 784) X_train ->
  exists left right up down,
    shift_all zero (-1, 0)%Z X_train = Some left /\
    shift_all zero (1, 0)%Z X_train = Some right /\
    shift_all zero (0, 1)%Z X_train = Some up /\
    shift_all zero (0, -1)%Z X_train = Some down /\
    append_all zero X_train y_train directions (X_train, y_train)
    = Some (concat [X_train; left; right; up; down],
            concat [y_train; y_train; y_train; y_train; y_train]).
Proof.
  intros Hlen HX.
  assert (Hfst : map fst (combine X_train y_train) = X_train).
  { clear HX. revert y_train Hlen.
    induction X_train as [|x X IH]; intros [|y ys] Hl; simpl in *;
      try discriminate; [reflexivity|]. f_equal. apply IH. lia. }
  assert (Hsnd : map snd (combine X_train y_train) = y_train).
  { clear HX Hfst. revert y_train Hlen.
    induction X_train as [|x X IH]; intros [|y ys] Hl; simpl in *;
      try discriminate; [reflexivity|]. f_equal. apply IH. lia. }
  destruct (shift_all_in_range zero (-1) 0 X_train HX) as (a & Ha & _); [lia..|].
  destruct (shift_all_in_range zero 1 0 X_train HX) as (b & Hb & _); [lia..|].
  destruct (shift_all_in_range zero 0 1 X_train HX) as (c & Hc & _); [lia..|].
  destruct (shift_all_in_range zero 0 (-1) X_train HX) as (d & Hd & _); [lia..|].
  exists a, b, c, d. repeat split; auto.
  unfold directions. cbn [append_all]. unfold append_shifted.
  rewrite Hfst, Hsnd, Ha. cbn [bind fst snd].
  rewrite Hb. cbn [bind fst snd].
  rewrite Hc. cbn [bind fst snd].
  rewrite Hd. cbn [bind fst snd concat].
  rewrite !app_nil_r, <- !app_assoc. reflexivity.
Qed.

(** X4: After the cell, every position holds an image together with its own
    label: the image at position [q] is the training image number
    [p mod n], unshifted or shifted in one of the four directions, and the
    label at position [q] is the label number [p mod n], where [p] is the
    [q]-th entry of the shuffle and [n] the size of the training set.  No
    entry is lost when the shuffle is a list of [5 * n] positions. *)
Theorem augmentation_keeps_labels (X_train : list (list A)) (y_train : list L)
  (shuffle_idx : list nat) :
  length X_train = length y_train ->
  Forall (fun image => length image = 784) X_train ->
  Forall (fun p => p < 5 * length X_train) shuffle_idx ->
  exists X_aug y_aug,
    augmentation_cell zero X_train y_train shuffle_idx = Some (X_aug, y_aug) /\
    length X_aug = length shuffle_idx /\
    length y_aug = length shuffle_idx /\
    forall q p, nth_error shuffle_idx q = Some p ->
      exists image,
        nth_error X_train (p mod length X_train) = Some image /\
        nth_error X_aug q
        = shift zero image (nth (p / length X_train) ((0, 0)%Z :: directions) (0, 0)%Z) /\
        nth_error y_aug q = nth_error y_train (p mod length X_train).
Proof.
  intros Hlen HX Hidx.
  destruct (append_all_blocks X_train y_train Hlen HX)
    as (a & b & c & d & Ha & Hb & Hc & Hd & Happ).
  set (n := length X_train) in *.
  assert (Hla := shift_all_length _ _ _ Ha).
  assert (Hlb := shift_all_length _ _ _ Hb).
  assert (Hlc := shift_all_length _ _ _ Hc).
  assert (Hld := shift_all_length _ _ _ Hd).
  assert (HbX : Forall (fun blk : list (list A) => length blk = n)
                       [X_train; a; b; c; d]).
  { repeat constructor; assumption. }
  assert (Hby : Forall (fun blk : list L => length blk = n)
                       [y_train; y_train; y_train; y_train; y_train]).
  { repeat constructor; symmetry; exact Hlen. }
  assert (HlX : length (concat [X_train; a; b; c; d]) = 5 * n).
  { simpl. rewrite !length_app. simpl. fold n. lia. }
  assert (Hly : length (concat [y_train; y_train; y_train; y_train; y_train])
                = 5 * n).
  { simpl. rewrite !length_app. simpl. lia. }
  destruct (take_indices_some (concat [X_train; a; b; c; d]) shuffle_idx)
    as (Xs & HXs & HlXs); [now rewrite HlX|].
  destruct (take_indices_some
              (concat [y_train; y_train; y_train; y_train; y_train]) shuffle_idx)
    as (ys & Hys & Hlys); [now rewrite Hly|].
  exists Xs, ys. unfold augmentation_cell. rewrite Happ. cbn [bind fst snd].
  rewrite HXs. cbn [bind]. rewrite Hys. cbn [bind].
  repeat split; auto.
  intros q p Hq.
  destruct (take_indices_nth_error _ _ _ _ _ HXs Hq) as [HXq HpX].
  destruct (take_indices_nth_error _ _ _ _ _ Hys Hq) as [Hyq _].
  rewrite HlX in HpX.
  assert (Hn : n <> 0) by lia.
  assert (Hr : p mod n < n) by now apply Nat.mod_upper_bound.
  assert (Hk : p / n < 5) by (apply Nat.Div0.div_lt_upper_bound; lia).
  destruct (nth_error X_train (p mod n)) as [image|] eqn:Himage;
    [|apply nth_error_None in Himage; fold n in Himage; lia].
  exists image. split; [reflexivity|].
  rewrite HXq, Hyq. rewrite (Nat.div_mod_eq p n) at 1 3.
  rewrite (nth_error_concat_blocks n _ HbX), (nth_error_concat_blocks n _ Hby)
    by assumption.
  destruct (p / n) as [|[|[|[|[|k]]]]]; [..|lia]; cbn [nth directions]; split;
    try reflexivity.
  - rewrite Himage. symmetry. apply shift_zero.
    rewrite Forall_forall in HX. apply HX. eapply nth_error_In; eauto.
  - eapply shift_all_nth_error; eauto.
  - eapply shift_all_nth_error; eauto.
  - eapply shift_all_nth_error; eauto.
  - eapply shift_all_nth_error; eauto.
Qed.

End CellFacts.

Lemma augmentation_keeps_labels_witness :
  exists X_aug y_aug,
    augmentation_cell 0%Z [repeat 1%Z 784; repeat 2%Z 784] [true; false]
                      [9; 0; 3; 5] = Some (X_aug, y_aug) /\
    y_aug = [false; true; false; false].
Proof.
  destruct (augmentation_keeps_labels 0%Z [repeat 1%Z 784; repeat 2%Z 784]
              [true; false] [9; 0; 3; 5])
    as (X_aug & y_aug & Hcell & _ & Hly & Hq).
  - reflexivity.
  - repeat constructor.
  - repeat constructor.
  - exists X_aug, y_aug. split; [exact Hcell|].
    destruct (Hq 0 9 eq_refl) as (_ & _ & _ & H0).
    destruct (Hq 1 0 eq_refl) as (_ & _ & _ & H1).
    destruct (Hq 2 3 eq_refl) as (_ & _ & _ & H2).
    destruct (Hq 3 5 eq_refl) as (_ & _ & _ & H3).
    destruct y_aug as [|y0 [|y1 [|y2 [|y3 [|y4 rest]]]]]; try discriminate Hly.
    simpl in H0, H1, H2, H3. congruence.
Defined.

End MnistAugmentFacts.

(** ** More on the callback: any state, a stop on the first batch, reuse *)

Module LearningRateMoreFacts.
Import PyFloat LearningRate LearningRateFacts.


(** X6: A stop on the first batch.  When no loss is recorded yet and the
    first updated rate is already above [end_lr] (as with bounds given the
    wrong way round), the chapter 10 callback records that one rate and the
    loss of the batch and stops the training; the chapter 13 callback
    raises, since it looks for the minimum of an empty list of losses. *)
Theorem first_batch_stop (cb : ExponentialLearningRate) (f : float)
    (m : keras_model) (loss : float) (rest : list float) :
  factor cb = Real f -> losses cb = [] ->
  exceeds (end_lr cb) (rate (starting_lr cb) f 0) = true ->
  exists (cb' : ExponentialLearningRate) (m' : keras_model),
    fit cb m (loss :: rest) = Some (cb', m') /\
    learning_rates cb' = learning_rates cb ++ [rate (starting_lr cb) f 0] /\
    losses cb' = [loss] /\
    stop_training m' = true /\
    fit_13 cb m (loss :: rest) = None.
Proof.
  intros Hf Hl Hex. unfold rate in *. cbn [ramp] in Hex.
  unfold fit, fit_13, on_train_begin. cbn [stop_training learning_rate].
  cbn [run_batches run_batches_13].
  unfold on_train_batch_end_13, on_train_batch_end.
  rewrite Hf. cbn [learning_rate stop_training]. rewrite Hex, Hl.
  cbn [argmin stop_training]. do 2 eexists.
  split; [reflexivity|].
  cbn [learning_rates losses stop_training ramp app]. repeat split.
Qed.



(** The call [ExponentialLearningRate(4.0, 1.0, 2)], bounds the wrong way
    round, for which [(1.0 / 4.0) ** (1 / 2)] is 0.5. *)
Lemma first_batch_stop_witness :
  exists (cb' : ExponentialLearningRate) (m' : keras_model),
    fit (mk_callback (Real (decimal 5 1)) (decimal 4 0) (decimal 1 0) [] [])
        (mk_model zero false) [one; one]
    = Some (cb', m') /\
    learning_rates cb' = [rate (decimal 4 0) (decimal 5 1) 0] /\
    losses cb' = [one] /\
    stop_training m' = true /\
    fit_13 (mk_callback (Real (decimal 5 1)) (decimal 4 0) (decimal 1 0) [] [])
           (mk_model zero false) [one; one]
    = None.
Proof.
  apply (first_batch_stop
           (mk_callback (Real (decimal 5 1)) (decimal 4 0) (decimal 1 0) [] [])
           (decimal 5 1) (mk_model zero false) one [one]);
    reflexivity.
Defined.


End LearningRateMoreFacts.

(** ** Shards: where each record goes, and the round trip *)

Module ShardsFacts.
Import Shards.

Lemma stride_index (k n j q : nat) :
  0 < k -> j < k -> (q < stride_len k n j <-> q * k + j < n).
Proof.
  intros Hk Hj. unfold stride_len.
  pose proof (Nat.div_mod_eq n k) as Hn.
  pose proof (Nat.mod_upper_bound n k ltac:(lia)) as Hb.
  destruct (Nat.ltb_spec j (n mod k)); split; intros Hq; nia.
Qed.

Lemma succ_div_mod (k n : nat) :
  0 < k ->
  (S (n mod k) < k /\ S n / k = n / k /\ S n mod k = S (n mod k)) \/
  (S (n mod k) = k /\ S n / k = S (n / k) /\ S n mod k = 0).
Proof.
  intros Hk.
  pose proof (Nat.div_mod_eq n k) as Hn.
  pose proof (Nat.mod_upper_bound n k ltac:(lia)) as Hb.
  destruct (Nat.eq_dec (S (n mod k)) k) as [He|Hne].
  - right. split; [exact He|].
    destruct (Nat.div_mod_unique k (S n / k) (S (n / k)) (S n mod k) 0)
      as [H1 H2]; auto.
    + apply Nat.mod_upper_bound. lia.
    + rewrite <- Nat.div_mod_eq. lia.
  - left. split; [lia|].
    destruct (Nat.div_mod_unique k (S n / k) (n / k) (S n mod k) (S (n mod k)))
      as [H1 H2]; auto.
    + apply Nat.mod_upper_bound. lia.
    + lia.
    + rewrite <- Nat.div_mod_eq. lia.
Qed.

Lemma stride_len_S (k n j : nat) :
  0 < k -> j < k ->
  stride_len k (S n) j = stride_len k n j + (if j =? n mod k then 1 else 0).
Proof.
  intros Hk Hj. unfold stride_len.
  destruct (succ_div_mod k n Hk) as [(Hlt & -> & ->)|(Heq & -> & ->)];
    destruct (Nat.ltb_spec j (n mod k)), (Nat.eqb_spec j (n mod k));
    try destruct (Nat.ltb_spec j (S (n mod k)));
    try destruct (Nat.ltb_spec j 0); lia.
Qed.

Section FilesFacts.
Context {Item Rec : Type}.
Variable serialize : Item -> Rec.

Lemma write_at_spec (writers : list (list Rec)) (j : nat) (x : Rec) :
  j < length writers ->
  exists writers',
    write_at writers j x = Some writers' /\
    length writers' = length writers /\
    nth j writers' [] = nth j writers [] ++ [x] /\
    forall j', j' <> j -> nth j' writers' [] = nth j' writers [].
Proof.
  revert j. induction writers as [|w ws IH]; intros j Hj; simpl in Hj; [lia|].
  destruct j as [|j]; simpl.
  - eexists; repeat split. intros [|j'] Hne; [congruence | reflexivity].
  - destruct (IH j) as (ws' & -> & Hl & Hn & Ho); [lia|].
    eexists; repeat split; simpl; auto.
    intros [|j'] Hne; [reflexivity|]. apply Ho. congruence.
Qed.

(** The loop over a dataset with one more element. *)
Lemma write_loop_snoc (k : nat) (dataset : list Item) (x : Item) :
  forall writers i,
    write_loop serialize k writers i (dataset ++ [x])
    = match write_loop serialize k writers i dataset with
      | Some writers' =>
          if k =? 0 then None
          else write_at writers' ((i + length dataset) mod k) (serialize x)
      | None => None
      end.
Proof.
  induction dataset as [|y rest IH]; intros writers i; simpl.
  - rewrite Nat.add_0_r. destruct (k =? 0); [reflexivity|].
    now destruct (write_at writers (i mod k) (serialize x)).
  - destruct (k =? 0) eqn:Hk; [reflexivity|].
    destruct (write_at writers (i mod k) (serialize y)); [|reflexivity].
    rewrite IH. now replace (S i + length rest) with (i + S (length rest)) by lia.
Qed.

(** Round-robin sharding: with at least one shard the loop never raises;
    shard [j] receives the records number [j], [j + k], [j + 2 k], ... of the
    dataset, in this order, and nothing else. *)
Lemma write_shards_entries (k : nat) (dataset : list Item) :
  0 < k ->
  exists shards,
    write_shards serialize k dataset = Some shards /\
    length shards = k /\
    forall j, j < k ->
      length (nth j shards []) = stride_len k (length dataset) j /\
      forall q, nth_error (nth j shards []) q
                = nth_error (map serialize dataset) (q * k + j).
Proof.
  intros Hk. unfold write_shards.
  induction dataset as [|x dataset IH] using rev_ind.
  - exists (repeat [] k). simpl. rewrite repeat_length. repeat split; auto.
    + rewrite nth_repeat. unfold stride_len. simpl.
      rewrite Nat.Div0.div_0_l, Nat.Div0.mod_0_l. reflexivity.
    + intros q. rewrite nth_repeat. simpl.
      now destruct q, (_ + j).
  - destruct IH as (shards & Hw & Hl & Hshards).
    rewrite write_loop_snoc, Hw.
    replace (k =? 0) with false by (symmetry; apply Nat.eqb_neq; lia).
    set (n := length dataset). simpl (0 + n).
    assert (Hb : n mod k < k) by (apply Nat.mod_upper_bound; lia).
    destruct (write_at_spec shards (n mod k) (serialize x))
      as (shards' & Hw' & Hl' & Hnew & Hold); [lia|].
    exists shards'. split; [exact Hw'|]. split; [congruence|].
    intros j Hj. rewrite length_app. cbn [length]. fold n.
    replace (n + 1) with (S n) by lia. rewrite stride_len_S by assumption.
    destruct (Hshards j Hj) as [Hlen Hent]. fold n in Hlen.
    rewrite map_app. simpl map.
    destruct (Nat.eqb_spec j (n mod k)) as [->|Hne].
    + rewrite Hnew, length_app, Hlen. split; [reflexivity|].
      intros q. pose proof (stride_index k n (n mod k) q Hk Hb) as Hidx.
      assert (Hn : stride_len k n (n mod k) * k + n mod k = n).
      { unfold stride_len. rewrite Nat.ltb_irrefl.
        pose proof (Nat.div_mod_eq n k). lia. }
      destruct (Nat.lt_trichotomy q (stride_len k n (n mod k))) as [Hq|[Hq|Hq]].
      * rewrite nth_error_app1 by lia. rewrite Hent.
        rewrite nth_error_app1; [reflexivity|]. rewrite length_map. fold n. lia.
      * subst q. rewrite nth_error_app2 by lia.
        rewrite Hlen, Nat.sub_diag, Hn.
        rewrite nth_error_app2 by (rewrite length_map; fold n; lia).
        rewrite length_map. fold n. now rewrite Nat.sub_diag.
      * rewrite (proj2 (nth_error_None _ _)) by (rewrite length_app; simpl; lia).
        symmetry. apply nth_error_None.
        rewrite length_app, length_map. fold n. simpl. nia.
    + rewrite Hold by assumption. split; [lia|].
      intros q. rewrite Hent.
      pose proof (Nat.div_mod_eq n k) as Hdm.
      destruct (Nat.lt_ge_cases (q * k + j) n) as [Hlt|Hge].
      * rewrite nth_error_app1; [reflexivity|]. rewrite length_map. fold n. lia.
      * rewrite (proj2 (nth_error_None _ _)) by (rewrite length_map; fold n; lia).
        symmetry. apply nth_error_None.
        rewrite length_app, length_map. fold n. simpl.
        assert (q * k + j <> n); [|lia].
        intros Heq.
        destruct (Nat.div_mod_unique k q (n / k) j (n mod k)); auto; lia.
Qed.

(** X8: Every record is written exactly once: record number [p] is the record
    number [p / k] of shard [p mod k]; shard [j] holds the records number
    [j], [j + k], [j + 2 k], ... and nothing else; no two shards differ in
    size by more than one record. *)
Theorem write_shards_round_robin (k : nat) (dataset : list Item) :
  0 < k ->
  exists shards,
    write_shards serialize k dataset = Some shards /\
    length shards = k /\
    (forall j q, j < k ->
       nth_error (nth j shards []) q
       = nth_error (map serialize dataset) (q * k + j)) /\
    (forall p, nth_error (nth (p mod k) shards []) (p / k)
               = nth_error (map serialize dataset) p) /\
    (forall j j', j < k -> j' < k ->
       length (nth j shards []) <= length (nth j' shards []) + 1).
Proof.
  intros Hk.
  destruct (write_shards_entries k dataset Hk) as (shards & Hw & Hl & Hs).
  exists shards. split; [exact Hw|]. split; [exact Hl|].
  split; [|split].
  - intros j q Hj. now apply Hs.
  - intros p.
    assert (Hb : p mod k < k) by (apply Nat.mod_upper_bound; lia).
    destruct (Hs _ Hb) as [_ He]. rewrite He. f_equal.
    pose proof (Nat.div_mod_eq p k). lia.
  - intros j j' Hj Hj'.
    destruct (Hs j Hj) as [-> _]. destruct (Hs j' Hj') as [-> _].
    unfold stride_len. destruct (j <? _), (j' <? _); lia.
Qed.

Lemma firstn_1_skipn (q : nat) (f : list Rec) :
  firstn 1 (skipn q f)
  = match nth_error f q with Some x => [x] | None => [] end.
Proof.
  rewrite <- hd_error_skipn. now destruct (skipn q f).
Qed.

Lemma read_rounds_skipn (r : nat) (files : list (list Rec)) :
  forall q,
    read_rounds r (map (skipn q) files)
    = flat_map (fun q' => flat_map (fun f => firstn 1 (skipn q' f)) files)
               (seq q r).
Proof.
  induction r as [|r IH]; intros q; [reflexivity|].
  cbn [read_rounds seq flat_map]. f_equal.
  - unfold heads. rewrite flat_map_concat_map, map_map, <- flat_map_concat_map.
    reflexivity.
  - unfold tails. rewrite map_map. rewrite <- IH. f_equal.
    apply map_ext. intros f. now rewrite skipn_skipn.
Qed.

Lemma firstn_succ (k : nat) (l : list Rec) :
  firstn (S k) l
  = firstn k l ++ match nth_error l k with Some x => [x] | None => [] end.
Proof.
  revert l. induction k as [|k IH]; intros [|x l]; try reflexivity.
  cbn [firstn nth_error app]. f_equal.
  rewrite <- IH. reflexivity.
Qed.

Lemma block_of_entries (k s : nat) (l : list Rec) :
  flat_map (fun j => match nth_error l (s + j) with Some x => [x] | None => [] end)
           (seq 0 k)
  = firstn k (skipn s l).
Proof.
  induction k as [|k IH]; [reflexivity|].
  rewrite seq_S, flat_map_app, IH, firstn_succ. cbn [flat_map Nat.add].
  now rewrite app_nil_r, nth_error_skipn.
Qed.

Lemma firstn_add (a b : nat) (l : list Rec) :
  firstn (a + b) l = firstn a l ++ firstn b (skipn a l).
Proof.
  revert l. induction a as [|a IH]; intros [|x l]; simpl; try reflexivity.
  - now rewrite firstn_nil.
  - now rewrite IH.
Qed.

Lemma blocks_concat (k r : nat) (l : list Rec) :
  flat_map (fun q => firstn k (skipn (q * k) l)) (seq 0 r) = firstn (r * k) l.
Proof.
  induction r as [|r IH]; [reflexivity|].
  rewrite seq_S, flat_map_app, IH. cbn [flat_map Nat.add].
  rewrite app_nil_r. replace (S r * k) with (r * k + k) by lia.
  now rewrite firstn_add.
Qed.

Lemma read_shards_entries (k : nat) (dataset : list Item)
    (shards : list (list Rec)) :
  0 < k -> length shards = k ->
  (forall j, j < k ->
     length (nth j shards []) = stride_len k (length dataset) j /\
     forall q, nth_error (nth j shards []) q
               = nth_error (map serialize dataset) (q * k + j)) ->
  read_shards shards = map serialize dataset.
Proof.
  intros Hk Hl Hs.
  unfold read_shards. set (rounds := list_max (map (@length Rec) shards)).
  assert (Hfiles : shards = map (fun j => nth j shards []) (seq 0 k)).
  { apply (nth_ext _ _ [] []).
    - now rewrite length_map, length_seq.
    - intros j Hj. rewrite Hl in Hj.
      rewrite (nth_indep (map (fun j => nth j shards []) (seq 0 k)) []
                         (nth 0 shards []))
        by now rewrite length_map, length_seq.
      rewrite (map_nth (fun j => nth j shards [])), seq_nth by assumption.
      reflexivity. }
  rewrite <- (map_id shards) at 1.
  rewrite (map_ext _ (skipn 0) (fun f => eq_refl : f = skipn 0 f)).
  rewrite read_rounds_skipn.
  rewrite (flat_map_ext _ (fun q => firstn k (skipn (q * k) (map serialize dataset)))).
  - rewrite blocks_concat. apply firstn_all2. rewrite length_map.
    assert (H0 : length (nth 0 shards []) <= rounds).
    { assert (HF : Forall (fun n => n <= rounds) (map (@length Rec) shards))
        by (apply list_max_le; lia).
      rewrite Forall_forall in HF. apply HF. apply in_map, nth_In. lia. }
    destruct (Hs 0 Hk) as [Hlen0 _]. rewrite Hlen0 in H0.
    unfold stride_len in H0.
    pose proof (Nat.div_mod_eq (length dataset) k) as Hdm.
    pose proof (Nat.mod_upper_bound (length dataset) k ltac:(lia)) as Hb.
    destruct (Nat.ltb_spec 0 (length dataset mod k)); nia.
  - intros q. rewrite Hfiles at 1.
    rewrite flat_map_concat_map, map_map, <- flat_map_concat_map.
    rewrite <- block_of_entries. rewrite !flat_map_concat_map. f_equal.
    apply map_ext_in. intros j Hj.
    apply in_seq in Hj. rewrite firstn_1_skipn.
    destruct (Hs j) as [_ He]; [lia|]. now rewrite He.
Qed.

(** X9: Round trip: reading the shards back, one record from each file in turn,
    gives the serialized examples of the dataset in their original order. *)
Theorem read_write_shards (k : nat) (dataset : list Item) :
  0 < k ->
  exists shards,
    write_shards serialize k dataset = Some shards /\
    read_shards shards = map serialize dataset.
Proof.
  intros Hk.
  destruct (write_shards_entries k dataset Hk) as (shards & Hw & Hl & Hs).
  exists shards. split; [exact Hw|].
  now apply (read_shards_entries k dataset shards).
Qed.

End FilesFacts.

Lemma write_shards_round_robin_witness :
  write_shards (fun x : nat => x) 3 [10; 11; 12; 13; 14; 15; 16]
  = Some [[10; 13; 16]; [11; 14]; [12; 15]] /\
  (forall p, nth_error (nth (p mod 3) [[10; 13; 16]; [11; 14]; [12; 15]] [])
                       (p / 3)
             = nth_error (map (fun x : nat => x) [10; 11; 12; 13; 14; 15; 16]) p).
Proof.
  destruct (write_shards_round_robin (fun x : nat => x) 3
              [10; 11; 12; 13; 14; 15; 16])
    as (shards & Hw & _ & _ & Hp & _); [lia|].
  vm_compute in Hw. injection Hw as <-. split; [reflexivity | exact Hp].
Defined.

Lemma read_write_shards_witness :
  exists shards,
    write_shards (fun x : nat => x) 5 (seq 0 12) = Some shards /\
    read_shards shards = map (fun x : nat => x) (seq 0 12).
Proof. apply (read_write_shards (fun x : nat => x) 5 (seq 0 12)). lia. Defined.

End ShardsFacts.

(** ** Turned and mirrored faces *)

Module FacesFacts.
Import Numpy NumpyFacts NumpyIndex NumpyIndexFacts Mnist Faces.
Section RotFacts.
Context {A : Type}.
Variable zero : A.

Lemma column_map (j : nat) (rs : list (list A)) :
  Forall (fun r => j < length r) rs ->
  column j rs = map (fun r => nth j r zero) rs.
Proof.
  induction 1 as [|r rs Hr _ IH]; [reflexivity|].
  unfold column in *. cbn [flat_map map]. rewrite IH. f_equal.
  rewrite <- (firstn_skipn j r) at 2.
  rewrite app_nth2 by (rewrite length_firstn; lia).
  rewrite length_firstn, Nat.min_l, Nat.sub_diag by lia.
  destruct (skipn j r) eqn:Hs; [|reflexivity].
  apply (f_equal (@length A)) in Hs. rewrite length_skipn in Hs. simpl in Hs. lia.
Qed.

Lemma nth_map_seq {B : Type} (f : nat -> B) (c i : nat) (d : B) :
  i < c -> nth i (map f (seq 0 c)) d = f i.
Proof.
  intros Hi. rewrite (nth_indep _ d (f 0)) by now rewrite length_map, length_seq.
  now rewrite map_nth, seq_nth.
Qed.

Lemma transpose_shape (a : ndarray A) (r c : nat) :
  has_shape a r c -> has_shape (transpose a) c r.
Proof.
  intros (Hr & Hc & Hw). unfold has_shape, nrows, well_shaped, transpose in *.
  cbn [rows ncols]. rewrite length_map, length_seq.
  repeat split; auto.
  apply Forall_map, Forall_forall. intros j Hj. apply in_seq in Hj.
  rewrite (column_map j).
  - now rewrite length_map.
  - eapply Forall_impl; [|exact Hw]. intros row Hrow. simpl in Hrow. lia.
Qed.

Lemma entry_transpose (a : ndarray A) (r c i j : nat) :
  has_shape a r c -> i < c -> j < r ->
  entry zero (transpose a) i j = entry zero a j i.
Proof.
  intros (Hr & Hc & Hw) Hi Hj. unfold entry, transpose. cbn [rows].
  rewrite nth_map_seq by lia.
  rewrite (column_map i).
  - rewrite (nth_indep _ zero (nth i [] zero)) by (rewrite length_map; unfold nrows in Hr; lia).
    now rewrite (map_nth (fun row => nth i row zero)).
  - eapply Forall_impl; [|exact Hw]. intros row Hrow. simpl in Hrow. lia.
Qed.

Lemma flip1_shape (a : ndarray A) (r c : nat) :
  has_shape a r c -> has_shape (flip1 a) r c.
Proof.
  intros (Hr & Hc & Hw). unfold has_shape, nrows, well_shaped, flip1 in *.
  cbn [rows ncols]. rewrite length_map. repeat split; auto.
  apply Forall_map. eapply Forall_impl; [|exact Hw].
  intros row Hrow. simpl in *. now rewrite length_rev.
Qed.

Lemma flip0_shape (a : ndarray A) (r c : nat) :
  has_shape a r c -> has_shape (flip0 a) r c.
Proof.
  intros (Hr & Hc & Hw). unfold has_shape, nrows, well_shaped, flip0 in *.
  cbn [rows ncols]. rewrite length_rev. repeat split; auto.
  now apply Forall_rev.
Qed.

Lemma entry_flip1 (a : ndarray A) (r c i j : nat) :
  has_shape a r c -> i < r -> j < c ->
  entry zero (flip1 a) i j = entry zero a i (c - 1 - j).
Proof.
  intros (Hr & Hc & Hw) Hi Hj. unfold entry, flip1. cbn [rows].
  rewrite nth_map_nil by reflexivity.
  assert (Hrow : length (nth i (rows a) []) = c).
  { unfold well_shaped in Hw. rewrite Forall_forall in Hw.
    rewrite <- Hc. apply Hw, nth_In. unfold nrows in Hr. lia. }
  rewrite rev_nth by lia. f_equal. lia.
Qed.

Lemma entry_flip0 (a : ndarray A) (r c i j : nat) :
  has_shape a r c -> i < r ->
  entry zero (flip0 a) i j = entry zero a (r - 1 - i) j.
Proof.
  intros (Hr & Hc & Hw) Hi. unfold entry, flip0. cbn [rows].
  unfold nrows in Hr. rewrite rev_nth by lia. do 2 f_equal. lia.
Qed.

Lemma ravel_entry (a : ndarray A) (r c i j : nat) :
  has_shape a r c -> j < c ->
  nth (c * i + j) (ravel a) zero = entry zero a i j.
Proof.
  intros (Hr & Hc & Hw) Hj. unfold ravel, entry. subst c.
  now apply nth_concat_rows.
Qed.

Lemma ravel_length (a : ndarray A) (r c : nat) :
  has_shape a r c -> length (ravel a) = r * c.
Proof.
  intros (Hr & Hc & Hw). unfold ravel. rewrite concat_rows_length by assumption.
  now rewrite Hr, Hc.
Qed.

Lemma rot90_shape (m : ndarray A) (k : Z) :
  has_shape m 64 64 -> has_shape (rot90 m k) 64 64.
Proof.
  intros Hm. unfold rot90.
  repeat match goal with
         | |- context [match ?x with _ => _ end] => destruct x
         end; auto using transpose_shape, flip1_shape, flip0_shape.
Qed.

(** [rotate_face], entry by entry, for the three draws. *)
Lemma rotate_face_pixel (face : list A) (k : Z) :
  length face = 4096 -> (1 <= k <= 3)%Z ->
  exists out,
    rotate_face face k = Some out /\
    length out = 4096 /\
    forall i j, i < 64 -> j < 64 ->
      nth (64 * i + j) out zero
      = nth (64 * fst (rotation_source k i j) + snd (rotation_source k i j))
            face zero.
Proof.
  intros Hlen Hk. unfold rotate_face.
  destruct (reshape2_shape 64 64 face Hlen) as (m & Hm & Hs & _).
  rewrite Hm. cbn [bind]. eexists. split; [reflexivity|].
  split; [now rewrite (ravel_length _ 64 64) by now apply rot90_shape|].
  intros i j Hi Hj.
  rewrite (ravel_entry _ 64 64) by (auto using rot90_shape).
  assert (Hcases : k = 1%Z \/ k = 2%Z \/ k = 3%Z) by lia.
  destruct Hcases as [Hc|[Hc|Hc]]; subst k; unfold rot90; cbn [Z.modulo Z.div_eucl
    Z.pos_div_eucl Z.leb Z.ltb Z.compare Z.mul Z.add Z.sub Pos.compare
    Pos.compare_cont fst snd Z.opp Z.pos_sub Z.succ_double Z.double
    Z.pred_double Pos.pred_double Pos.mul Pos.add Pos.succ rotation_source].
  - rewrite (entry_transpose _ 64 64), (entry_flip1 _ 64 64)
      by (auto using flip1_shape).
    rewrite (entry_reshape2 zero 64 64 face m) by (auto; lia).
    f_equal; lia.
  - rewrite (entry_flip1 _ 64 64), (entry_flip0 _ 64 64)
      by (auto using flip0_shape; lia).
    rewrite (entry_reshape2 zero 64 64 face m) by (auto; lia).
    f_equal; lia.
  - rewrite (entry_flip1 _ 64 64), (entry_transpose _ 64 64)
      by (auto using transpose_shape; lia).
    rewrite (entry_reshape2 zero 64 64 face m) by (auto; lia).
    f_equal; lia.
Qed.

(** [flip_face], entry by entry. *)
Lemma flip_face_pixel (face : list A) :
  length face = 4096 ->
  exists out,
    flip_face face = Some out /\
    length out = 4096 /\
    forall i j, i < 64 -> j < 64 ->
      nth (64 * i + j) out zero = nth (64 * i + (63 - j)) face zero.
Proof.
  intros Hlen. unfold flip_face.
  destruct (reshape2_shape 64 64 face Hlen) as (m & Hm & Hs & _).
  rewrite Hm. cbn [bind]. eexists. split; [reflexivity|].
  assert (Ht : has_shape (transpose m) 64 64) by now apply transpose_shape.
  split; [now rewrite (ravel_length _ 64 64) by now apply rot90_shape|].
  intros i j Hi Hj.
  rewrite (ravel_entry _ 64 64) by (auto using rot90_shape).
  change (rot90 (transpose m) 3) with (flip1 (transpose (transpose m))).
  rewrite (entry_flip1 _ 64 64), (entry_transpose _ 64 64),
    (entry_transpose _ 64 64) by (auto using transpose_shape; lia).
  rewrite (entry_reshape2 zero 64 64 face m) by (auto; lia).
  f_equal; lia.
Qed.

(** X10: [rotate_face] accepts a face of 4096 entries and, for each of the
    three draws of [np.random.randint(1, 4)], returns 4096 entries: the entry
    of row [i], column [j] is the entry [rotation_source k i j] of the face (a
    quarter turn against the clock for 1, a half turn for 2, a quarter turn
    with the clock for 3), and turning the result by [4 - k] gives the face
    back. *)
Theorem rotate_face_turns_back (face : list A) (k : Z) :
  length face = 4096 -> (1 <= k <= 3)%Z ->
  exists out,
    rotate_face face k = Some out /\
    length out = 4096 /\
    (forall i j, i < 64 -> j < 64 ->
       nth (64 * i + j) out zero
       = nth (64 * fst (rotation_source k i j) + snd (rotation_source k i j))
             face zero) /\
    rotate_face out (4 - k) = Some face.
Proof.
  intros Hlen Hk.
  destruct (rotate_face_pixel face k Hlen Hk) as (out & Hout & Hlo & Hpix).
  exists out. repeat split; auto.
  destruct (rotate_face_pixel out (4 - k) Hlo ltac:(lia)) as (back & Hback & Hlb & Hpb).
  rewrite Hback. f_equal.
  apply (flat_ext zero 64 64); auto.
  intros i j Hi Hj. rewrite Hpb by assumption.
  assert (Hcases : k = 1%Z \/ k = 2%Z \/ k = 3%Z) by lia.
  destruct Hcases as [Hc|[Hc|Hc]]; subst k;
    cbn [Z.sub Z.add Z.opp Z.pos_sub Z.succ_double Z.double Z.pred_double
         Pos.pred_double rotation_source fst snd];
    (rewrite Hpix by lia);
    cbn [rotation_source fst snd]; f_equal; lia.
Qed.

(** X11: [flip_face] accepts a face of 4096 entries and mirrors it left to
    right: the entry of row [i], column [j] of the result is the entry of row
    [i], column [63 - j] of the face, and flipping twice gives the face back. *)
Theorem flip_face_mirror (face : list A) :
  length face = 4096 ->
  exists out,
    flip_face face = Some out /\
    length out = 4096 /\
    (forall i j, i < 64 -> j < 64 ->
       nth (64 * i + j) out zero = nth (64 * i + (63 - j)) face zero) /\
    flip_face out = Some face.
Proof.
  intros Hlen.
  destruct (flip_face_pixel face Hlen) as (out & Hout & Hlo & Hpix).
  exists out. repeat split; auto.
  destruct (flip_face_pixel out Hlo) as (back & Hback & Hlb & Hpb).
  rewrite Hback. f_equal.
  apply (flat_ext zero 64 64); auto.
  intros i j Hi Hj. rewrite Hpb, Hpix by lia. f_equal; lia.
Qed.

(** X12: A face whose length is not 4096 is refused by [rotate_face] and by
    [flip_face] (the [reshape(64, 64)] raises), whatever the draw. *)
Theorem faces_of_other_sizes_refused (face : list A) (k : Z) :
  length face <> 4096 ->
  rotate_face face k = None /\ flip_face face = None.
Proof.
  intros Hlen. unfold rotate_face, flip_face, reshape2.
  destruct (length face =? 64 * 64) eqn:E.
  - apply Nat.eqb_eq in E. contradiction.
  - split; reflexivity.
Qed.

End RotFacts.

Lemma rotate_face_turns_back_witness :
  exists out,
    rotate_face (seq 0 4096) 1 = Some out /\
    length out = 4096 /\
    (forall i j, i < 64 -> j < 64 ->
       nth (64 * i + j) out 0
       = nth (64 * fst (rotation_source 1 i j) + snd (rotation_source 1 i j))
             (seq 0 4096) 0) /\
    rotate_face out (4 - 1) = Some (seq 0 4096).
Proof.
  apply (rotate_face_turns_back 0 (seq 0 4096) 1); [reflexivity | lia].
Defined.

Lemma flip_face_mirror_witness :
  exists out,
    flip_face (seq 0 4096) = Some out /\
    length out = 4096 /\
    (forall i j, i < 64 -> j < 64 ->
       nth (64 * i + j) out 0 = nth (64 * i + (63 - j)) (seq 0 4096) 0) /\
    flip_face out = Some (seq 0 4096).
Proof. apply (flip_face_mirror 0 (seq 0 4096)). reflexivity. Defined.

Lemma faces_of_other_sizes_refused_witness :
  rotate_face (seq 0 784) 2 = None /\ flip_face (seq 0 784) = None.
Proof.
  apply (faces_of_other_sizes_refused (seq 0 784) 2).
  vm_compute. discriminate.
Defined.

End FacesFacts.

(** ** The modified faces and the faces they come from *)

Module ModifiedFacesFacts.
Import Numpy NumpyFacts Mnist Faces FacesFacts ModifiedFaces.

Section Loop.
Variable X : list (list R).
Variable draws : nat -> Z.
Hypothesis X_faces : forall q, q < 20 -> length (nth q X []) = 4096.
Hypothesis X_rows : 20 <= length X.
Hypothesis draws_range : forall i, i < 5 -> (1 <= draws i <= 3)%Z.

Lemma modify_loop_rounds (m : nat) :
  m <= 5 ->
  exists b,
    modify_loop X draws m = Some b /\
    length (rotated b) = m /\ length (flipped b) = m /\
    length (darkened b) = m /\ length (lightened b) = m /\
    forall i, i < m ->
      rotate_face (nth (4 * i) X []) (draws i) = Some (nth i (rotated b) []) /\
      flip_face (nth (4 * i + 1) X []) = Some (nth i (flipped b) []) /\
      darken_face (nth (4 * i + 2) X []) = nth i (darkened b) [] /\
      lighten_face (nth (4 * i + 3) X []) = nth i (lightened b) [].
Proof.
  induction m as [|m IH]; intros Hm.
  - exists (mk_bins [] [] [] []). cbn. repeat split; auto; lia.
  - destruct IH as (b & Hb & Hr & Hf & Hd & Hl & Hrows); [lia|].
    unfold modify_loop in *. rewrite seq_S, fold_left_app, Hb.
    cbn [fold_left bind Nat.add]. unfold modify_step.
    rewrite (nth_error_nth' X [] (n := 4 * m)) by lia. cbn [bind].
    destruct (rotate_face_pixel 0%R (nth (4 * m) X []) (draws m))
      as (r & Hrot & _); [apply X_faces; lia | apply draws_range; lia |].
    rewrite Hrot. cbn [bind].
    rewrite (nth_error_nth' X [] (n := 4 * m + 1)) by lia. cbn [bind].
    destruct (flip_face_pixel 0%R (nth (4 * m + 1) X []))
      as (f & Hflip & _); [apply X_faces; lia |].
    rewrite Hflip. cbn [bind].
    rewrite (nth_error_nth' X [] (n := 4 * m + 2)) by lia. cbn [bind].
    rewrite (nth_error_nth' X [] (n := 4 * m + 3)) by lia. cbn [bind].
    eexists. split; [reflexivity|]. cbn [rotated flipped darkened lightened].
    rewrite !length_app, Hr, Hf, Hd, Hl. cbn [length].
    repeat split; try lia.
    all: destruct (Nat.eq_dec i m) as [->|Hne];
      [ rewrite app_nth2 by lia;
        match goal with |- context [nth (?a - ?b) _ _] =>
          replace (a - b) with 0 by lia end; cbn [nth]; auto
      | rewrite app_nth1 by lia; apply Hrows; lia ].
Qed.

End Loop.

Lemma vstack_rows_same (c : nat) (rs : list (list R)) :
  rs <> [] -> Forall (fun r => length r = c) rs ->
  vstack_rows rs = Some (mk_ndarray c rs).
Proof.
  intros Hne Hall. destruct rs as [|r rs']; [contradiction|].
  unfold vstack_rows.
  assert (Hr : length r = c) by now inversion Hall.
  replace (forallb (fun x => length x =? length r) (r :: rs')) with true.
  - now rewrite Hr.
  - symmetry. apply forallb_forall. intros x Hx. apply Nat.eqb_eq.
    rewrite Forall_forall in Hall. rewrite Hr. now apply Hall.
Qed.

Lemma nth_blocks (r f d l : list (list R)) (q : nat) :
  length r = 5 -> length f = 5 -> length d = 5 -> length l = 5 -> q < 20 ->
  nth q (r ++ f ++ d ++ l) []
  = match q / 5 with
    | 0 => nth (q mod 5) r []
    | 1 => nth (q mod 5) f []
    | 2 => nth (q mod 5) d []
    | _ => nth (q mod 5) l []
    end.
Proof.
  intros Hr Hf Hd Hl Hq.
  assert (Hdm := Nat.div_mod_eq q 5).
  assert (Hm := Nat.mod_upper_bound q 5 ltac:(lia)).
  destruct (q / 5) as [|[|[|t]]].
  - rewrite app_nth1 by lia. f_equal; lia.
  - rewrite app_nth2, app_nth1 by lia. f_equal; lia.
  - rewrite app_nth2, app_nth2, app_nth1 by lia. f_equal; lia.
  - rewrite app_nth2, app_nth2, app_nth2 by lia. f_equal; lia.
Qed.

(** X13: Every row of the stacked array is made from the row [modified_source q]
    of [X_val], which is row [q] itself for the first and the last row only:
    the loop that plots [zip(X_modified, scores, scores_modified)] then sets
    the new score of face [modified_source q] beside the old score of face
    [q]. *)
Theorem modified_rows_and_their_sources (X_val : ndarray R) (draws : nat -> Z) :
  well_shaped X_val -> ncols X_val = 4096 -> 20 <= nrows X_val ->
  (forall i, i < 5 -> (1 <= draws i <= 3)%Z) ->
  exists X_modified,
    modified_cell X_val draws = Some X_modified /\
    has_shape X_modified 20 4096 /\
    (forall q, q < 20 ->
       modification (q / 5) (draws (q mod 5))
                    (nth (modified_source q) (rows X_val) [])
       = Some (nth q (rows X_modified) [])) /\
    (forall q, q < 20 -> (modified_source q = q <-> q = 0 \/ q = 19)).
Proof.
  intros Hw Hc Hn Hdraws. unfold nrows in Hn.
  set (X := firstn 20 (rows X_val)).
  assert (HX : forall q, q < 20 -> nth q X [] = nth q (rows X_val) []).
  { intros q Hq. unfold X. rewrite nth_firstn.
    now rewrite (proj2 (Nat.ltb_lt q 20) Hq). }
  assert (Hfaces : forall q, q < 20 -> length (nth q X []) = 4096).
  { intros q Hq. rewrite HX by assumption. rewrite <- Hc.
    unfold well_shaped in Hw. rewrite Forall_forall in Hw.
    apply Hw, nth_In. lia. }
  assert (Hlen : 20 <= length X) by (unfold X; rewrite length_firstn; lia).
  destruct (modify_loop_rounds X draws Hfaces Hlen Hdraws 5 (le_n 5))
    as (b & Hb & Hr & Hf & Hd & Hl & Hrows).
  unfold modified_cell. fold X. rewrite Hb. cbn [bind].
  assert (Hall : Forall (fun r => length r = 4096)
                   (rotated b ++ flipped b ++ darkened b ++ lightened b)).
  { apply Forall_forall. intros r Hin.
    destruct (In_nth _ _ [] Hin) as (q & Hq & <-).
    rewrite !length_app, Hr, Hf, Hd, Hl in Hq.
    rewrite nth_blocks by (auto; lia).
    assert (Hm := Nat.mod_upper_bound q 5 ltac:(lia)).
    destruct (Hrows (q mod 5) Hm) as (H0 & H1 & H2 & H3).
    destruct (q / 5) as [|[|[|t]]].
    - destruct (rotate_face_pixel 0%R (nth (4 * (q mod 5)) X []) (draws (q mod 5)))
        as (o & Ho & Hlo & _); [apply Hfaces; lia | apply Hdraws; lia |].
      congruence.
    - destruct (flip_face_pixel 0%R (nth (4 * (q mod 5) + 1) X []))
        as (o & Ho & Hlo & _); [apply Hfaces; lia |].
      congruence.
    - rewrite <- H2. unfold darken_face. rewrite length_map. apply Hfaces. lia.
    - rewrite <- H3. unfold lighten_face. rewrite length_map. apply Hfaces. lia. }
  assert (Hne : rotated b ++ flipped b ++ darkened b ++ lightened b <> []).
  { intros Heq. apply (f_equal (@length (list R))) in Heq.
    rewrite !length_app, Hr in Heq. cbn [length] in Heq. lia. }
  rewrite (vstack_rows_same 4096 _ Hne Hall).
  eexists. split; [reflexivity|]. split; [|split].
  - unfold has_shape, nrows, well_shaped. cbn [rows ncols].
    rewrite !length_app, Hr, Hf, Hd, Hl. auto.
  - intros q Hq. cbn [rows]. rewrite nth_blocks by (auto; lia).
    assert (Hm := Nat.mod_upper_bound q 5 ltac:(lia)).
    assert (Hdm := Nat.div_mod_eq q 5).
    destruct (Hrows (q mod 5) Hm) as (H0 & H1 & H2 & H3).
    unfold modified_source. rewrite <- HX by lia.
    destruct (q / 5) as [|[|[|t]]]; cbn [modification].
    + now rewrite Nat.add_0_r.
    + assumption.
    + now f_equal.
    + replace (S (S (S t))) with 3 by lia. now f_equal.
  - intros q Hq. unfold modified_source.
    assert (Hm := Nat.mod_upper_bound q 5 ltac:(lia)).
    assert (Hdm := Nat.div_mod_eq q 5).
    split.
    + intros Heq. lia.
    + intros [->| ->]; reflexivity.
Qed.

Lemma modified_rows_and_their_sources_witness :
  exists X_modified,
    modified_cell (mk_ndarray 4096 (repeat (repeat 0%R 4096) 20)) (fun _ => 2%Z)
    = Some X_modified /\
    has_shape X_modified 20 4096 /\
    (forall q, q < 20 ->
       modification (q / 5) 2
                    (nth (modified_source q) (repeat (repeat 0%R 4096) 20) [])
       = Some (nth q (rows X_modified) [])) /\
    (forall q, q < 20 -> (modified_source q = q <-> q = 0 \/ q = 19)).
Proof.
  apply (modified_rows_and_their_sources
           (mk_ndarray 4096 (repeat (repeat 0%R 4096) 20)) (fun _ => 2%Z)).
  - unfold well_shaped. cbn [rows ncols].
    apply Forall_forall. intros r Hr. apply repeat_spec in Hr. subst r.
    apply repeat_length.
  - reflexivity.
  - unfold nrows. cbn [rows]. rewrite repeat_length. lia.
  - intros i _. lia.
Defined.

End ModifiedFacesFacts.

(** ** The clusters split the training set *)

Module ClustersFacts.
Import Mnist Clusters.

Section MaskFacts.
Context {A : Type}.

Lemma mask_select_labels (labels : list nat) (a : list A) (c : nat) :
  length labels = length a ->
  mask_select (labels_eq labels c) a
  = Some (map snd (filter (fun p => fst p =? c) (combine labels a))).
Proof.
  intros Hlen. unfold mask_select, labels_eq.
  rewrite length_map, (proj2 (Nat.eqb_eq _ _) Hlen). f_equal. clear Hlen.
  revert a. induction labels as [|l ls IH]; intros [|x xs]; try reflexivity.
  cbn [map combine filter fst]. destruct (l =? c); cbn [map snd]; now rewrite IH.
Qed.

Lemma comprehension_all {X Y : Type} (h : X -> option Y) (g : X -> Y)
    (l : list X) :
  (forall x, In x l -> h x = Some (g x)) ->
  comprehension (map h l) = Some (map g l).
Proof.
  induction l as [|x l IH]; intros H; [reflexivity|].
  cbn [map comprehension]. rewrite (H x) by now left. cbn [bind].
  rewrite IH by (intros; apply H; now right). reflexivity.
Qed.

Lemma cluster_faces_rows (labels : list nat) (a : list A) (k : nat) :
  length labels = length a ->
  cluster_faces labels a k
  = Some (map (fun c => map snd (filter (fun p => fst p =? c) (combine labels a)))
              (seq 0 k)).
Proof.
  intros Hlen. unfold cluster_faces.
  apply (comprehension_all (fun c => mask_select (labels_eq labels c) a)).
  intros c _. now apply mask_select_labels.
Qed.

Lemma filter_split {X : Type} (p q r : X -> bool) (l : list X) :
  (forall x, r x = p x || q x) -> (forall x, p x && q x = false) ->
  Permutation (filter p l ++ filter q l) (filter r l).
Proof.
  intros Hr Hpq. induction l as [|x l IH]; [constructor|].
  cbn [filter]. rewrite Hr. specialize (Hpq x).
  destruct (p x), (q x); try discriminate; cbn [orb app].
  - now constructor.
  - etransitivity; [apply Permutation_sym, Permutation_middle|]. now constructor.
  - assumption.
Qed.

Lemma clusters_below (L : list (nat * A)) (k : nat) :
  Permutation
    (concat (map (fun c => map snd (filter (fun p => fst p =? c) L)) (seq 0 k)))
    (map snd (filter (fun p => fst p <? k) L)).
Proof.
  induction k as [|k IH].
  - replace (filter (fun p => fst p <? 0) L) with (@nil (nat * A));
      [apply perm_nil|].
    induction L as [|x L IHL]; [reflexivity|]. cbn. exact IHL.
  - rewrite seq_S, map_app, concat_app. cbn [map concat Nat.add].
    rewrite app_nil_r.
    etransitivity; [apply Permutation_app_tail, IH|].
    rewrite <- map_app. apply Permutation_map, filter_split.
    + intros x. destruct (Nat.ltb_spec (fst x) (S k)),
        (Nat.ltb_spec (fst x) k), (Nat.eqb_spec (fst x) k); cbn; auto; lia.
    + intros x. destruct (Nat.ltb_spec (fst x) k),
        (Nat.eqb_spec (fst x) k); cbn; auto; lia.
Qed.

Lemma filter_labels_all (labels : list nat) (a : list A) (k : nat) :
  Forall (fun l => l < k) labels ->
  filter (fun p => fst p <? k) (combine labels a) = combine labels a.
Proof.
  intros Hall. revert a.
  induction Hall as [|l ls Hl _ IH]; intros [|x xs]; try reflexivity.
  cbn [combine filter fst]. rewrite (proj2 (Nat.ltb_lt _ _) Hl). now rewrite IH.
Qed.

Lemma map_snd_combine {X : Type} (l : list X) (a : list A) :
  length l = length a -> map snd (combine l a) = a.
Proof.
  revert a. induction l as [|x l IH]; intros [|y a] Hlen;
    try discriminate; [reflexivity|].
  cbn. f_equal. apply IH. now injection Hlen.
Qed.

End MaskFacts.

Lemma clusters_aligned {A B : Type} (labels : list nat) (X : list A)
    (y : list B) (f : nat -> bool) :
  length labels = length X -> length labels = length y ->
  combine (map snd (filter (fun p => f (fst p)) (combine labels X)))
          (map snd (filter (fun p => f (fst p)) (combine labels y)))
  = map snd (filter (fun p => f (fst p)) (combine labels (combine X y))).
Proof.
  revert X y. induction labels as [|l ls IH]; intros [|x X] [|b y] HX Hy;
    try discriminate; [reflexivity|].
  cbn [combine filter fst]. destruct (f l); cbn [map snd combine];
    rewrite IH by (cbn in *; lia); reflexivity.
Qed.

(** X14: When every label of [labels_] is below [best_k], the two comprehensions
    succeed with [best_k] clusters each; the clusters hold every training face
    and every training label exactly once, and the faces and labels of one
    cluster pair up position by position as they do in the training set. *)
Theorem clusters_partition_training_set {A B : Type} (labels : list nat)
    (X_train : list A) (y_train : list B) (best_k : nat) :
  length labels = length X_train -> length labels = length y_train ->
  Forall (fun l => l < best_k) labels ->
  exists faces faces_labels,
    cluster_faces labels X_train best_k = Some faces /\
    cluster_faces labels y_train best_k = Some faces_labels /\
    length faces = best_k /\ length faces_labels = best_k /\
    Permutation (concat faces) X_train /\
    Permutation (concat faces_labels) y_train /\
    forall cluster, cluster < best_k ->
      combine (nth cluster faces []) (nth cluster faces_labels [])
      = map snd (filter (fun p => fst p =? cluster)
                        (combine labels (combine X_train y_train))).
Proof.
  intros HX Hy Hall.
  do 2 eexists. rewrite !cluster_faces_rows by assumption.
  split; [reflexivity|]. split; [reflexivity|].
  rewrite !length_map, length_seq. repeat split.
  - etransitivity; [apply clusters_below|].
    now rewrite filter_labels_all, map_snd_combine.
  - etransitivity; [apply clusters_below|].
    now rewrite filter_labels_all, map_snd_combine.
  - intros c Hc.
    rewrite !(nth_indep _ [] ((fun c => map snd (filter (fun p => fst p =? c)
                (combine labels X_train))) 0))
      by (rewrite length_map, length_seq; exact Hc).
    rewrite (map_nth (fun c => map snd (filter (fun p => fst p =? c)
                (combine labels X_train)))).
    rewrite (nth_indep _ [] ((fun c => map snd (filter (fun p => fst p =? c)
                (combine labels y_train))) 0))
      by (rewrite length_map, length_seq; exact Hc).
    rewrite (map_nth (fun c => map snd (filter (fun p => fst p =? c)
                (combine labels y_train)))).
    rewrite seq_nth by exact Hc. cbn [Nat.add].
    now apply (clusters_aligned labels X_train y_train (fun l => l =? c)).
Qed.

(** X15: A label array of another length than the training set makes the
    comprehension raise as soon as there is one cluster to select. *)
Theorem clusters_need_one_label_per_face {A : Type} (labels : list nat)
    (X_train : list A) (best_k : nat) :
  length labels <> length X_train -> 0 < best_k ->
  cluster_faces labels X_train best_k = None.
Proof.
  intros Hlen Hk. destruct best_k as [|k]; [lia|].
  unfold cluster_faces. cbn [seq map comprehension].
  unfold mask_select at 1, labels_eq at 1. rewrite length_map.
  now rewrite (proj2 (Nat.eqb_neq _ _) Hlen).
Qed.

Lemma clusters_partition_training_set_witness :
  exists faces faces_labels,
    cluster_faces [1; 0; 1; 2] [10; 11; 12; 13] 3 = Some faces /\
    cluster_faces [1; 0; 1; 2] [true; false; true; false] 3 = Some faces_labels /\
    length faces = 3 /\ length faces_labels = 3 /\
    Permutation (concat faces) [10; 11; 12; 13] /\
    Permutation (concat faces_labels) [true; false; true; false] /\
    forall cluster, cluster < 3 ->
      combine (nth cluster faces []) (nth cluster faces_labels [])
      = map snd (filter (fun p => fst p =? cluster)
                        (combine [1; 0; 1; 2]
                           (combine [10; 11; 12; 13] [true; false; true; false]))).
Proof.
  apply (clusters_partition_training_set [1; 0; 1; 2] [10; 11; 12; 13]
           [true; false; true; false] 3); [reflexivity | reflexivity |].
  repeat constructor.
Defined.

Lemma clusters_need_one_label_per_face_witness :
  cluster_faces [0; 1] [10; 11; 12] 2 = None.
Proof.
  apply (clusters_need_one_label_per_face [0; 1] [10; 11; 12] 2);
    [discriminate | lia].
Defined.

End ClustersFacts.

(** ** What the cache of the augmented predictions holds *)

Module PredictionCacheFacts.
Import String PredictionCache.
Section CacheFacts.
Variables Estimator Data Inputs Predictions : Type.
Variable fit : Estimator -> Data -> Estimator.
Variable predict : Estimator -> Inputs -> Predictions.
Variables training_set augmented_training_set : Data.
Variable X_test : Inputs.

Lemma predictions_cell_binds (s : session Estimator Predictions) :
  exists s1 y,
    predictions_cell fit predict training_set X_test s = Some s1 /\
    y_test_predicted s1 = Some y /\
    load plain_path (disk s1) = Some y /\
    load augmented_path (disk s1) = load augmented_path (disk s).
Proof.
  unfold PredictionCache.predictions_cell.
  destruct (load plain_path (disk s)) as [cached|] eqn:Hload.
  - do 2 eexists. split; [reflexivity|]. cbn. auto.
  - do 2 eexists. split; [reflexivity|]. cbn. auto.
Qed.

(** X16: When the file of the augmented predictions does not exist yet, the two
    cells run without raising: the variable [y_test_predicted_aug] holds the
    predictions of the estimator refitted on the augmented set, but the file
    written under the augmented name holds [y_test_predicted].  In every later
    session that starts from these files both cells load, and
    [y_test_predicted_aug] is equal to [y_test_predicted]. *)
Theorem augmented_cache_holds_plain_predictions
    (s : session Estimator Predictions) :
  load augmented_path (disk s) = None ->
  exists s1 s2 y,
    predictions_cell fit predict training_set X_test s = Some s1 /\
    augmented_predictions_cell fit predict augmented_training_set X_test s1
    = Some s2 /\
    y_test_predicted s2 = Some y /\
    y_test_predicted_aug s2
    = Some (predict (fit (best_estimator_ s1) augmented_training_set) X_test) /\
    load augmented_path (disk s2) = Some y /\
    forall s' : session Estimator Predictions,
      disk s' = disk s2 ->
      exists s3 s4,
        predictions_cell fit predict training_set X_test s' = Some s3 /\
        augmented_predictions_cell fit predict augmented_training_set X_test s3
        = Some s4 /\
        best_estimator_ s4 = best_estimator_ s' /\
        y_test_predicted s4 = Some y /\
        y_test_predicted_aug s4 = Some y.
Proof.
  intros Hnone.
  destruct (predictions_cell_binds s) as (s1 & y & Hs1 & Hy & Hplain & Haug).
  rewrite Hnone in Haug.
  exists s1.
  unfold PredictionCache.augmented_predictions_cell at 1. rewrite Haug, Hy.
  eexists. exists y. split; [exact Hs1|]. split; [reflexivity|].
  cbn [y_test_predicted y_test_predicted_aug disk].
  split; [reflexivity|]. split; [reflexivity|]. split.
  - unfold dump. cbn [load]. now rewrite String.eqb_refl.
  - intros s' Hdisk.
    unfold PredictionCache.predictions_cell,
      PredictionCache.augmented_predictions_cell.
    rewrite Hdisk. unfold dump. cbn [load].
    replace (String.eqb augmented_path plain_path) with false by reflexivity.
    rewrite Hplain. do 2 eexists. split; [reflexivity|].
    cbn [disk load best_estimator_ y_test_predicted y_test_predicted_aug].
    rewrite String.eqb_refl. repeat split.
Qed.

End CacheFacts.

Lemma augmented_cache_holds_plain_predictions_witness :
  exists s1 s2 y,
    predictions_cell Nat.add Nat.mul 1 7 (mk_session [] 0 None None) = Some s1 /\
    augmented_predictions_cell Nat.add Nat.mul 10 7 s1 = Some s2 /\
    y_test_predicted s2 = Some y /\
    y_test_predicted_aug s2 = Some (Nat.mul (Nat.add (best_estimator_ s1) 10) 7) /\
    load augmented_path (disk s2) = Some y /\
    forall s' : session nat nat,
      disk s' = disk s2 ->
      exists s3 s4,
        predictions_cell Nat.add Nat.mul 1 7 s' = Some s3 /\
        augmented_predictions_cell Nat.add Nat.mul 10 7 s3 = Some s4 /\
        best_estimator_ s4 = best_estimator_ s' /\
        y_test_predicted s4 = Some y /\
        y_test_predicted_aug s4 = Some y.
Proof.
  apply (augmented_cache_holds_plain_predictions _ _ _ _ Nat.add Nat.mul 1 10 7
           (mk_session [] 0 None None)).
  reflexivity.
Defined.

End PredictionCacheFacts.

(** ** The validation split is drawn anew on every pass *)

Module ShuffledSplitFacts.
Import ShuffledSplit.
Section SplitFacts.
Context {Item : Type}.

Lemma not_in_firstn (data : list Item) (m i : nat) (d : Item) :
  NoDup data -> m <= i < length data -> ~ In (nth i data d) (firstn m data).
Proof.
  intros Hnd Hi Hin.
  destruct (In_nth _ _ d Hin) as (j & Hj & Hnth).
  rewrite length_firstn in Hj. rewrite nth_firstn in Hnth.
  rewrite (proj2 (Nat.ltb_lt j m)) in Hnth by lia.
  assert (j = i)
    by (apply (proj1 (NoDup_nth data d) Hnd); first [lia | assumption]).
  lia.
Qed.

Lemma split_of_two_passes (v : nat) (data : list Item) :
  NoDup data -> 0 < v < length data ->
  exists x z,
    In x (firstn v data) /\ In x (skipn v (rev data)) /\
    In z data /\ ~ In z (firstn v data) /\ ~ In z (skipn v (rev data)).
Proof.
  intros Hnd Hv. destruct data as [|x rest] eqn:Hdata; [cbn in Hv; lia|].
  rewrite <- Hdata in *.
  assert (Hlen : length data = S (length rest)) by now rewrite Hdata.
  exists x, (nth (length data - 1) data x).
  rewrite skipn_rev.
  assert (Hhead : forall m, 0 < m -> In x (firstn m data)).
  { intros [|m] Hm; [lia|]. rewrite Hdata. now left. }
  repeat split.
  - apply Hhead. lia.
  - apply -> in_rev. apply Hhead. lia.
  - apply nth_In. lia.
  - apply not_in_firstn; [assumption | lia].
  - intros Hin. apply in_rev in Hin. revert Hin.
    apply not_in_firstn; [assumption | lia].
Qed.

Lemma one_pass_disjoint (order : list Item) (x : Item) :
  NoDup order -> In x (valid_set order) -> ~ In x (train_set order).
Proof.
  unfold valid_set, train_set. intros Hnd Hv Ht.
  rewrite <- (firstn_skipn valid_size order) in Hnd.
  apply NoDup_app_remove_l in Hnd as Hnd'.
  revert Hv Ht. generalize dependent (skipn valid_size order).
  generalize (firstn valid_size order).
  intros l1. induction l1 as [|a l1 IH]; intros l2 Hnd _ Hv Ht; [destruct Hv|].
  cbn in Hnd. inversion Hnd as [|? ? Hna Hnd1]; subst.
  destruct Hv as [->|Hv].
  - apply Hna, in_or_app. now right.
  - apply (IH l2 Hnd1); auto. now apply NoDup_app_remove_l in Hnd1.
Qed.

(** X17: The writer loop iterates [train_set] and [valid_set] one after the other,
    each pass in an order of its own.  Within one order the first
    [valid_size] examples and the rest share nothing; but for examples that
    are all different and more than [valid_size] of them, there are two
    orders for which an example is written to the validation files and to the
    training files, and another example to neither. *)
Theorem validation_split_can_overlap (data : list Item) :
  NoDup data -> valid_size < length data ->
  (forall order x, Permutation order data ->
     In x (valid_set order) -> ~ In x (train_set order)) /\
  exists order_valid order_train x z,
    Permutation order_valid data /\ Permutation order_train data /\
    In x (valid_set order_valid) /\ In x (train_set order_train) /\
    In z data /\ ~ In z (valid_set order_valid) /\ ~ In z (train_set order_train).
Proof.
  intros Hnd Hlen. split.
  - intros order x Hperm. apply one_pass_disjoint.
    eapply Permutation_NoDup; [apply Permutation_sym|]; eassumption.
  - destruct (split_of_two_passes valid_size data Hnd) as (x & z & H);
      [unfold valid_size in *; lia|].
    exists data, (rev data), x, z. split; [reflexivity|].
    split; [apply Permutation_sym, Permutation_rev|]. exact H.
Qed.

(** X18: The validation and test sets of the movie reviews are the first 15000 and
    the rest of a dataset that is reshuffled on every pass: for reviews that
    are all different and more than 15000 of them, one pass over the
    validation set and one pass over the test set can hold the same review,
    and leave another review out of both. *)
Theorem movie_split_can_overlap (reviews : list Item) :
  NoDup reviews -> movie_valid_size < length reviews ->
  exists order_valid order_test x z,
    Permutation order_valid reviews /\ Permutation order_test reviews /\
    In x (movie_valid_dataset order_valid) /\
    In x (movie_test_dataset order_test) /\
    In z reviews /\ ~ In z (movie_valid_dataset order_valid) /\
    ~ In z (movie_test_dataset order_test).
Proof.
  intros Hnd Hlen.
  destruct (split_of_two_passes movie_valid_size reviews Hnd) as (x & z & H);
    [unfold movie_valid_size in *; lia|].
  exists reviews, (rev reviews), x, z. split; [reflexivity|].
  split; [apply Permutation_sym, Permutation_rev|]. exact H.
Qed.

End SplitFacts.

Lemma movie_split_can_overlap_witness :
  exists order_valid order_test x z,
    Permutation order_valid (seq 0 (S movie_valid_size)) /\
    Permutation order_test (seq 0 (S movie_valid_size)) /\
    In x (movie_valid_dataset order_valid) /\
    In x (movie_test_dataset order_test) /\
    In z (seq 0 (S movie_valid_size)) /\
    ~ In z (movie_valid_dataset order_valid) /\
    ~ In z (movie_test_dataset order_test).
Proof.
  apply (movie_split_can_overlap (seq 0 (S movie_valid_size))).
  - apply seq_NoDup.
  - rewrite length_seq. apply Nat.lt_succ_diag_r.
Defined.

Lemma validation_split_can_overlap_witness :
  (forall order x, Permutation order (seq 0 2050) ->
     In x (valid_set order) -> ~ In x (train_set order)) /\
  exists order_valid order_train x z,
    Permutation order_valid (seq 0 2050) /\ Permutation order_train (seq 0 2050) /\
    In x (valid_set order_valid) /\ In x (train_set order_train) /\
    In z (seq 0 2050) /\ ~ In z (valid_set order_valid) /\
    ~ In z (train_set order_train).
Proof.
  apply (validation_split_can_overlap (seq 0 2050)).
  - apply seq_NoDup.
  - rewrite length_seq. unfold valid_size. lia.
Defined.

End ShuffledSplitFacts.

(** ** The batches of [get_dataset] *)

Module InputPipelineFacts.
Import Numpy NumpyFacts NumpyIndexFacts Shards ShardsFacts InputPipeline.
Section PipelineFacts.
Context {Item Rec Example Tensor : Type}.
Variable serialize : Item -> Rec.
Variable parse : Rec -> Example.
Variable preprocess : Example -> Tensor.
Variable shuffled : list Tensor -> list Tensor.





End PipelineFacts.


End InputPipelineFacts.
